(** * Spirited Away script analysis: a shallow embedding of
    [spirited_away_analysis.py] and the properties of its analysis core.

    The embedding follows the Python source function by function.  Python
    [str] values are sequences of Unicode code points, dicts are
    insertion-ordered association lists, the analyzer object is a record
    threaded through its methods, and the exceptions that can escape a
    method are recorded in a result type. *)

From Stdlib Require Import ZArith QArith Lia.
From Stdlib Require Strings.Ascii Strings.String.
From stdpp Require Import base list sets sorting strings pretty.

Open Scope bool_scope.
Open Scope N_scope.

(** ** Python strings *)

(** A character is a Unicode code point; a Python [str] is a sequence of
    them. *)
Abbreviation char := N.
Abbreviation str := (list N).

(** [u "..."] reads an ASCII literal as a [str]. *)
Definition u (s : string) : str :=
  Ascii.N_of_ascii <$> String.list_ascii_of_string s.

Module Py.

(** [str.isspace] on one code point (CPython [_PyUnicode_IsWhitespace]). *)
Definition isspace (c : char) : bool :=
  ((9 <=? c) && (c <=? 13)) || ((28 <=? c) && (c <=? 32)) ||
  (c =? 133) || (c =? 160) || (c =? 5760) ||
  ((8192 <=? c) && (c <=? 8202)) || (c =? 8232) || (c =? 8233) ||
  (c =? 8239) || (c =? 8287) || (c =? 12288).

(** [s.lstrip()], [s.rstrip()] and [s.strip()] without argument. *)
Fixpoint lstrip (s : str) : str :=
  match s with
  | c :: t => if isspace c then lstrip t else s
  | [] => []
  end.

Definition rstrip (s : str) : str := reverse (lstrip (reverse s)).

Definition strip (s : str) : str := rstrip (lstrip s).

(** [s.startswith(p)]. *)
Fixpoint startswith (s p : str) : bool :=
  match p, s with
  | [], _ => true
  | a :: p', b :: s' => (a =? b) && startswith s' p'
  | _ :: _, [] => false
  end.

(** [needle in hay]: substring containment. *)
Fixpoint contains (hay needle : str) : bool :=
  startswith hay needle ||
  match hay with
  | [] => false
  | _ :: hay' => contains hay' needle
  end.

(** [sep.join(parts)]. *)
Fixpoint join (sep : str) (parts : list str) : str :=
  match parts with
  | [] => []
  | [p] => p
  | p :: rest => p ++ sep ++ join sep rest
  end.

(** [s.split(sep)] for a one-character separator: the pieces between the
    separators, always at least one piece. *)
Fixpoint split (sep : char) (s : str) : list str :=
  match s with
  | [] => [[]]
  | c :: t =>
      if c =? sep then [] :: split sep t
      else match split sep t with
           | p :: ps => (c :: p) :: ps
           | [] => [[c]]
           end
  end.

(** [xs[start:end]] for non-negative bounds. *)
Definition slice {A} (xs : list A) (start stop : nat) : list A :=
  take (stop - start)%nat (drop start xs).

End Py.

(** ** Unicode case data

    [str.lower] consults the Unicode character database.  The database is
    not part of the program, so the embedding takes it as an interface:
    the full lower-case mapping of a code point and the two properties
    CPython's final-sigma rule reads. *)
Class UnicodeDB := {
  to_lower_full : char -> str;        (* _PyUnicode_ToLowerFull *)
  is_cased : char -> bool;            (* _PyUnicode_IsCased *)
  is_case_ignorable : char -> bool    (* _PyUnicode_IsCaseIgnorable *)
}.

Definition CAPITAL_SIGMA : char := 931.   (* U+03A3 *)
Definition FINAL_SIGMA : char := 962.     (* U+03C2 *)
Definition SMALL_SIGMA : char := 963.     (* U+03C3 *)

Section Lower.
Context {U : UnicodeDB}.

(** The first code point of [s] that is not case-ignorable, if any. *)
Fixpoint skip_case_ignorable (s : str) : option char :=
  match s with
  | [] => None
  | c :: t => if is_case_ignorable c then skip_case_ignorable t else Some c
  end.

(** CPython [handle_capital_sigma]: [before] holds the code points that
    precede the sigma, nearest first; [after] those that follow it. *)
Definition handle_capital_sigma (before after : str) : char :=
  let final_sigma :=
    match skip_case_ignorable before with
    | Some c => is_cased c
    | None => false
    end &&
    match skip_case_ignorable after with
    | Some c => negb (is_cased c)
    | None => true
    end in
  if final_sigma then FINAL_SIGMA else SMALL_SIGMA.

(** CPython [lower_ucs4] at one position of the string. *)
Definition lower_ucs4 (before : str) (c : char) (after : str) : str :=
  if c =? CAPITAL_SIGMA then [handle_capital_sigma before after]
  else to_lower_full c.

(** CPython [do_lower]: every position is mapped in the context of the
    original string. *)
Fixpoint do_lower (before s : str) : str :=
  match s with
  | [] => []
  | c :: t => lower_ucs4 before c t ++ do_lower (c :: before) t
  end.

(** [s.lower()]. *)
Definition lower (s : str) : str := do_lower [] s.

End Lower.

(** The slice of the Unicode database used to run the examples: exact for
    the code points below U+0100 and for the three sigmas, which is all the
    examples contain. *)
Definition is_latin_upper (c : char) : bool :=
  ((65 <=? c) && (c <=? 90)) ||
  ((192 <=? c) && (c <=? 222) && negb (c =? 215)).

Definition is_latin_lower (c : char) : bool :=
  ((97 <=? c) && (c <=? 122)) || (c =? 170) || (c =? 181) || (c =? 186) ||
  ((223 <=? c) && (c <=? 255) && negb (c =? 247)).

Definition ucd : UnicodeDB := {|
  to_lower_full c :=
    if is_latin_upper c then [c + 32]
    else if c =? CAPITAL_SIGMA then [SMALL_SIGMA]
    else [c];
  is_cased c :=
    is_latin_upper c || is_latin_lower c ||
    (c =? CAPITAL_SIGMA) || (c =? FINAL_SIGMA) || (c =? SMALL_SIGMA);
  is_case_ignorable c :=
    (c =? 39) || (c =? 46) || (c =? 58) || (c =? 94) || (c =? 96) ||
    (c =? 168) || (c =? 173) || (c =? 175) || (c =? 180) || (c =? 183) ||
    (c =? 184)
|}.

Close Scope N_scope.

(** ** Python dicts

    A dict keeps its keys in insertion order and the report iterates over
    one, so a dict is an association list with each key at most once. *)
Module Dict.

Definition t (V : Type) := list (str * V).

Definition keys {V} (d : t V) : list str := fst <$> d.

(** [d.get(k)]: [None] when the key is absent. *)
Fixpoint get {V} (d : t V) (k : str) : option V :=
  match d with
  | [] => None
  | (k', v) :: d' => if decide (k = k') then Some v else get d' k
  end.

(** [k in d]. *)
Definition mem {V} (d : t V) (k : str) : bool :=
  match get d k with Some _ => true | None => false end.

(** [d[k] = v]: an existing key keeps its place, a new one goes last. *)
Fixpoint set {V} (d : t V) (k : str) (v : V) : t V :=
  match d with
  | [] => [(k, v)]
  | (k', v') :: d' =>
      if decide (k = k') then (k, v) :: d' else (k', v') :: set d' k v
  end.

(** An in-place update of [d[k]] ([d[k] += 1], [d[k].append(x)]).  The
    callers only update keys the dict was built with, so the [KeyError]
    of an absent key is no case of theirs: the dict is returned as is. *)
Fixpoint modify {V} (f : V -> V) (d : t V) (k : str) : t V :=
  match d with
  | [] => []
  | (k', v) :: d' =>
      if decide (k = k') then (k', f v) :: d' else (k', v) :: modify f d' k
  end.

(** [{k: v for k in ks}]. *)
Definition from_keys {V} (ks : list str) (v : V) : t V :=
  foldl (fun d k => set d k v) [] ks.

(** [{k: v for k, v in d.items() if p(v)}]. *)
Definition filter_values {V} (p : V -> bool) (d : t V) : t V :=
  foldl (fun acc kv => if p kv.2 then set acc kv.1 kv.2 else acc) [] d.

End Dict.

(** ** Exceptions *)
Inductive exn := ValueError | KeyError.

Inductive result (A : Type) :=
  | Ok (a : A)
  | Raise (e : exn).
Arguments Ok {A} a.
Arguments Raise {A} e.

(** ** The three substitutions of [create_wordcloud]

    Each pattern has the shape [o[^c]+c] for two delimiter characters and
    is replaced by the empty string. *)
Module Re.

(** The number of characters up to and including the first [c]. *)
Fixpoint scan_to (c : char) (s : str) : option nat :=
  match s with
  | [] => None
  | x :: t => if (x =? c)%N then Some 1 else S <$> scan_to c t
  end.

(** The length of the match of [[^c]+c] at the start of [s]: one or more
    characters other than [c], then [c]. *)
Definition match_body (c : char) (s : str) : option nat :=
  match s with
  | [] => None
  | x :: _ => if (x =? c)%N then None else scan_to c s
  end.

(** [re.sub] scans left to right; [skip] counts the characters of the
    current match still to be dropped. *)
Fixpoint sub_from (o c : char) (skip : nat) (s : str) : str :=
  match s with
  | [] => []
  | x :: t =>
      match skip with
      | S k => sub_from o c k t
      | O =>
          if (x =? o)%N then
            match match_body c t with
            | Some n => sub_from o c n t
            | None => x :: sub_from o c 0 t
            end
          else x :: sub_from o c 0 t
      end
  end.

(** [re.sub(r'o[^c]+c', '', s)]. *)
Definition sub_span (o c : char) (s : str) : str := sub_from o c 0 s.

Definition LT : char := 60%N.        (* < *)
Definition GT : char := 62%N.        (* > *)
Definition STAR : char := 42%N.      (* * *)
Definition LBRACKET : char := 91%N.  (* [ *)
Definition RBRACKET : char := 93%N.  (* ] *)

Definition sub_angle : str -> str := sub_span LT GT.
Definition sub_star : str -> str := sub_span STAR STAR.
Definition sub_square : str -> str := sub_span LBRACKET RBRACKET.

End Re.

(** ** networkx graphs

    [nx.Graph] keeps an adjacency dict of dicts; the only edge attribute
    the program sets is [weight], so an inner dict maps a neighbour to the
    weight of the edge. *)
Module Nx.

Definition Graph := Dict.t (Dict.t Z).

Definition empty : Graph := [].

Definition nodes (G : Graph) : list str := Dict.keys G.

(** [G.add_node(n)]. *)
Definition add_node (G : Graph) (n : str) : Graph :=
  if Dict.mem G n then G else Dict.set G n [].

(** [G.add_edge(a, b, weight=w)]: both directions share the attribute. *)
Definition add_edge (G : Graph) (a b : str) (w : Z) : Graph :=
  let G := add_node G a in
  let G := add_node G b in
  let G := Dict.modify (fun nbrs => Dict.set nbrs b w) G a in
  Dict.modify (fun nbrs => Dict.set nbrs a w) G b.

(** [G.has_edge(a, b)]. *)
Definition has_edge (G : Graph) (a b : str) : bool :=
  match Dict.get G a with
  | Some nbrs => Dict.mem nbrs b
  | None => false
  end.

(** [G[a][b]['weight']]. *)
Definition weight (G : Graph) (a b : str) : option Z :=
  nbrs ← Dict.get G a; Dict.get nbrs b.

(** [G.degree(n)]: the neighbours of [n], a self-loop counted twice. *)
Definition degree (G : Graph) (n : str) : option nat :=
  nbrs ← Dict.get G n;
  Some (length nbrs + (if Dict.mem nbrs n then 1 else 0)).

(** [G.edges()]: every edge once, reported at its endpoint that comes
    first in node order. *)
Fixpoint edges_from (seen : list str) (adj : Graph) : list (str * str) :=
  match adj with
  | [] => []
  | (n, nbrs) :: rest =>
      ((fun m => (n, m)) <$>
         filter (fun m => m ∉ seen) (Dict.keys nbrs))
      ++ edges_from (n :: seen) rest
  end.

Definition edges (G : Graph) : list (str * str) := edges_from [] G.

(** An edge is incident to its two endpoints. *)
Definition incident (n : str) (e : str * str) : bool :=
  bool_decide (e.1 = n) || bool_decide (e.2 = n).

End Nx.

(** ** The analyzer object *)
Record SpiritedAwayAnalyzer := {
  script_file : str;
  script_text : str;
  lines : list str;
  characters : Dict.t nat
}.

(** [__init__]. *)
Definition init (file : str) : SpiritedAwayAnalyzer :=
  {| script_file := file; script_text := []; lines := []; characters := [] |}.

(** [load_script]: [read_file] is the file system, [None] when opening,
    reading or decoding fails.  The method returns whether it succeeded. *)
Definition load_script (read_file : str -> option str)
    (self : SpiritedAwayAnalyzer) : bool * SpiritedAwayAnalyzer :=
  match read_file (script_file self) with
  | Some text =>
      (true, {| script_file := script_file self;
                script_text := text;
                lines := Py.split 10%N text;
                characters := characters self |})
  | None => (false, self)
  end.

(** The lines printed by [generate_summary_report], one constructor for
    each [print] statement. *)
Inductive report_line :=
  | Rule
  | Title
  | TitleZh
  | ScriptLength (n : nat)
  | ScriptLengthZh (n : nat)
  | CharactersDetected (n : nat)
  | CharactersDetectedZh
  | Appearances (name : str) (count : nat)
  | MostActive (name : str)
  | MostActiveZh (name : str)
  | Generated
  | GeneratedZh
  | GeneratedFile (name : str).

(** [sorted(items, key=lambda x: x[1], reverse=True)]: a stable sort, so
    items with equal counts keep their order. *)
Fixpoint insert_desc (x : str * nat) (sorted : list (str * nat)) :
    list (str * nat) :=
  match sorted with
  | [] => [x]
  | y :: rest =>
      if (x.2 <? y.2)%nat then y :: insert_desc x rest else x :: sorted
  end.

Definition sorted_desc (items : list (str * nat)) : list (str * nat) :=
  foldr insert_desc [] items.

(** [max(xs, key=key)]: the first of the largest elements; [ValueError] on
    an empty argument. *)
Definition py_max {A} (key : A -> nat) (xs : list A) : result A :=
  match xs with
  | [] => Raise ValueError
  | x :: rest =>
      Ok (foldl (fun best y => if (key best <? key y)%nat then y else best)
                x rest)
  end.

(** [sum(1 for word in words if word in text)]. *)
Definition count_words (words : list str) (text : str) : nat :=
  sum_list ((fun _ => 1%nat) <$>
            filter (fun word => Py.contains text word) words).

(** The sentiment of a segment from its two counts; the quotient of the
    two integers is kept as the exact rational. *)
Definition sentiment_of (pos_count neg_count : nat) : Q :=
  let total_emotional_words := (pos_count + neg_count)%nat in
  if (0 <? total_emotional_words)%nat then
    (Z.of_nat pos_count - Z.of_nat neg_count) # Pos.of_nat total_emotional_words
  else 0.

(** The bounds [start], [end] of segment [i] of a script of [total_lines]
    lines. *)
Definition segment_bounds (total_lines i : nat) : nat * nat :=
  let segment_size := (total_lines / 10)%nat in
  let start := (i * segment_size)%nat in
  let stop := if (i <? 9)%nat then (start + segment_size)%nat else total_lines in
  (start, stop).

(** [self.lines[start:end]] of segment [i]. *)
Definition segment_lines (ls : list str) (i : nat) : list str :=
  let '(start, stop) := segment_bounds (length ls) i in
  Py.slice ls start stop.

Section Analysis.
Context {U : UnicodeDB}.

(** *** [extract_characters] *)

Definition main_characters : list str :=
  u <$> ["Chihiro"; "Haku"; "Yobaba"; "Zeniba"; "Rin";
         "No Face"; "Grandpa Kama"; "Mom"; "Dad"]%string.

(** [char.lower() in line.lower()]. *)
Definition mentions (line char : str) : bool :=
  Py.contains (lower line) (lower char).

(** The test on a stripped line: non-empty and no markup prefix. *)
Definition scanned (line : str) : bool :=
  negb (bool_decide (line = [])) &&
  negb (Py.startswith line (u "<")) &&
  negb (Py.startswith line (u "*")).

(** The body of the loop over the roster, for one line. *)
Definition record_mention (line : str)
    (st : Dict.t (list str) * Dict.t nat) (char : str) :
    Dict.t (list str) * Dict.t nat :=
  if mentions line char then
    (Dict.modify (fun ls => ls ++ [line]) st.1 char,
     Dict.modify S st.2 char)
  else st.

(** The body of the loop over the lines. *)
Definition scan_line (roster : list str)
    (st : Dict.t (list str) * Dict.t nat) (line : str) :
    Dict.t (list str) * Dict.t nat :=
  let line := Py.strip line in
  if scanned line then foldl (record_mention line) st roster else st.

(** [extract_characters] over a given roster: the two dicts it returns
    and the analyzer with [self.characters] assigned. *)
Definition extract_characters_with (roster : list str)
    (self : SpiritedAwayAnalyzer) :
    (Dict.t (list str) * Dict.t nat) * SpiritedAwayAnalyzer :=
  let character_lines := Dict.from_keys roster [] in
  let character_count := Dict.from_keys roster 0%nat in
  let st := foldl (scan_line roster) (character_lines, character_count)
                  (lines self) in
  (st, {| script_file := script_file self;
          script_text := script_text self;
          lines := lines self;
          characters := st.2 |}).

Definition extract_characters :=
  extract_characters_with main_characters.

(** *** [create_wordcloud]: the text handed to the word cloud *)
Definition wordcloud_text (self : SpiritedAwayAnalyzer) : str :=
  let text := lower (script_text self) in
  let text := Re.sub_angle text in
  let text := Re.sub_star text in
  Re.sub_square text.

(** *** [analyze_characters]: the counts handed to the bar chart *)
Definition analyze_characters_with (roster : list str)
    (self : SpiritedAwayAnalyzer) : Dict.t nat * SpiritedAwayAnalyzer :=
  let '((_, character_count), self) := extract_characters_with roster self in
  (Dict.filter_values (fun v => (0 <? v)%nat) character_count, self).

Definition analyze_characters :=
  analyze_characters_with main_characters.

(** *** [sentiment_analysis] *)

Definition positive_words : list str :=
  u <$> ["good"; "great"; "wonderful"; "beautiful"; "happy"; "love";
         "nice"; "amazing"; "fantastic"; "excellent"; "perfect"; "thank";
         "thanks"]%string.

Definition negative_words : list str :=
  u <$> ["bad"; "terrible"; "awful"; "sad"; "angry"; "hate"; "horrible";
         "scary"; "afraid"; "worried"; "sorry"; "hurt"; "pain";
         "die"]%string.

(** [' '.join(self.lines[start:end]).lower()]. *)
Definition segment_text (ls : list str) (i : nat) : str :=
  lower (Py.join (u " ") (segment_lines ls i)).

(** The sentiment computed from a segment text. *)
Definition text_sentiment (positive negative : list str) (text : str) : Q :=
  let pos_count := count_words positive text in
  let neg_count := count_words negative text in
  sentiment_of pos_count neg_count.

(** The body of the loop over [range(10)]. *)
Definition score_segment (positive negative : list str) (ls : list str)
    (acc : list str * list Q) (i : nat) : list str * list Q :=
  let sentiment := text_sentiment positive negative (segment_text ls i) in
  (acc.1 ++ [u ("Segment " +:+ pretty (i + 1)%nat)], acc.2 ++ [sentiment]).

(** [sentiment_analysis] over given vocabularies: the segment labels and
    the scores. *)
Definition sentiment_analysis_with (positive negative : list str)
    (self : SpiritedAwayAnalyzer) : list str * list Q :=
  foldl (score_segment positive negative (lines self)) ([], []) (seq 0 10).

Definition sentiment_analysis :=
  sentiment_analysis_with positive_words negative_words.

(** *** [generate_summary_report] *)

(** The method prints, then returns [True] or raises; the printed lines
    are those written before the exception. *)
Definition generate_summary_report_with (roster : list str)
    (self : SpiritedAwayAnalyzer) :
    list report_line * result bool * SpiritedAwayAnalyzer :=
  let out := [Rule; Title; TitleZh; Rule;
              ScriptLength (length (lines self));
              ScriptLengthZh (length (lines self))] in
  let '((_, character_count), self) := extract_characters_with roster self in
  let filtered_chars :=
    Dict.filter_values (fun v => (0 <? v)%nat) character_count in
  let out := out ++ [CharactersDetected (length filtered_chars);
                     CharactersDetectedZh] in
  let out := out ++ ((fun kv => Appearances kv.1 kv.2)
                       <$> sorted_desc filtered_chars) in
  let key := fun k => default 0%nat (Dict.get filtered_chars k) in
  match py_max key (Dict.keys filtered_chars) with
  | Raise e => (out, Raise e, self)
  | Ok top =>
      match py_max key (Dict.keys filtered_chars) with
      | Raise e => (out ++ [MostActive top], Raise e, self)
      | Ok top' =>
          (out ++ [MostActive top; MostActiveZh top';
                   Generated; GeneratedZh;
                   GeneratedFile (u "spirited_away_wordcloud.png");
                   GeneratedFile (u "character_frequency.png");
                   GeneratedFile (u "sentiment_analysis.png")],
           Ok true, self)
      end
  end.

Definition generate_summary_report :=
  generate_summary_report_with main_characters.

End Analysis.

(** *** [create_character_network] *)

Definition network_characters : list str :=
  u <$> ["Chihiro"; "Haku"; "Yobaba"; "Zeniba"; "Rin"; "No Face";
         "Grandpa Kama"]%string.

Definition relationships : list (str * str * Z) :=
  [(u "Chihiro", u "Haku", 3%Z);
   (u "Chihiro", u "Yobaba", 2%Z);
   (u "Chihiro", u "Rin", 2%Z);
   (u "Chihiro", u "No Face", 2%Z);
   (u "Chihiro", u "Grandpa Kama", 1%Z);
   (u "Haku", u "Yobaba", 2%Z);
   (u "Yobaba", u "Zeniba", 1%Z);
   (u "Rin", u "Grandpa Kama", 1%Z);
   (u "Chihiro", u "Zeniba", 1%Z)].

(** The body of the loop over the authored triples. *)
Definition add_relationship (roster : list str) (G : Nx.Graph)
    (r : str * str * Z) : Nx.Graph :=
  let '(char1, char2, weight) := r in
  if bool_decide (char1 ∈ roster) && bool_decide (char2 ∈ roster)
  then Nx.add_edge G char1 char2 weight
  else G.

(** The graph built from a roster and a list of authored triples. *)
Definition character_network_with (roster : list str)
    (rels : list (str * str * Z)) : Nx.Graph :=
  let G := foldl Nx.add_node Nx.empty roster in
  foldl (add_relationship roster) G rels.

Definition create_character_network : Nx.Graph :=
  character_network_with network_characters relationships.

(** *** [main]

    The plotting, image export and layout calls are collaborators outside
    the analysis: they act on a world [W] that holds the files they write
    and the random state that [nx.spring_layout] and the word-cloud layout
    draw from. *)
Class Renderers (W : Type) := {
  render_wordcloud : str -> W -> W;
  render_bar_chart : Dict.t nat -> W -> W;
  render_line_chart : list str -> list Q -> W -> W;
  render_network : Nx.Graph -> W -> W
}.

(** The configuration: the constants the methods carry. *)
Record config := {
  roster : list str;
  positive : list str;
  negative : list str;
  network_roster : list str;
  authored_edges : list (str * str * Z)
}.

(** What one run computes. *)
Record analysis := {
  cloud_text : str;
  frequencies : Dict.t nat;
  mention_counts : Dict.t nat;
  sentiment_scores : list Q;
  network : Nx.Graph;
  stdout : list report_line;
  outcome : result bool
}.

(** U+5267 U+672C ".txt". *)
Definition SCRIPT_NAME : str := [21095%N; 26412%N] ++ u ".txt".

Section Main.
Context {U : UnicodeDB} {W : Type} {R : Renderers W}.

(** [main] over a configuration: [None] when the script cannot be
    loaded. *)
Definition main_with (cfg : config) (read_file : str -> option str)
    (w : W) : option analysis * W :=
  let analyzer := init SCRIPT_NAME in
  let '(loaded, analyzer) := load_script read_file analyzer in
  if negb loaded then (None, w) else
  let text := wordcloud_text analyzer in
  let w := render_wordcloud text w in
  let '(filtered_chars, analyzer) :=
    analyze_characters_with (roster cfg) analyzer in
  let w := render_bar_chart filtered_chars w in
  let '(segments, scores) :=
    sentiment_analysis_with (positive cfg) (negative cfg) analyzer in
  let w := render_line_chart segments scores w in
  let G := character_network_with (network_roster cfg) (authored_edges cfg) in
  let w := render_network G w in
  let '(out, res, analyzer) :=
    generate_summary_report_with (roster cfg) analyzer in
  (Some {| cloud_text := text;
           frequencies := filtered_chars;
           mention_counts := characters analyzer;
           sentiment_scores := scores;
           network := G;
           stdout := out;
           outcome := res |}, w).

Definition source_config : config :=
  {| roster := main_characters;
     positive := positive_words;
     negative := negative_words;
     network_roster := network_characters;
     authored_edges := relationships |}.

Definition main := main_with source_config.

End Main.

(** ** Definitions that follow the specification's wording *)

(** The occurrences of [word] as a substring of [text]. *)
Fixpoint occurrences (text word : str) : nat :=
  (if Py.startswith text word then 1 else 0) +
  match text with
  | [] => 0
  | _ :: text' => occurrences text' word
  end.

(** "Count substring occurrences of each vocabulary word." *)
Definition spec_count_occurrences (words : list str) (text : str) : nat :=
  sum_list ((occurrences text) <$> words).

(** The score of the specification over occurrence counts. *)
Definition spec_text_sentiment (positive negative : list str) (text : str) : Q :=
  sentiment_of (spec_count_occurrences positive text)
               (spec_count_occurrences negative text).

(** "Removes three categories of markup spans, then lowercases the
    result." *)
Definition spec_normalize {U : UnicodeDB} (text : str) : str :=
  lower (Re.sub_square (Re.sub_star (Re.sub_angle text))).

(** "Segment i (0-8) spans [i*segment_size, (i+1)*segment_size); segment 9
    spans [9*segment_size, total_lines)." *)
Definition spec_segment_bounds (total_lines i : nat) : nat * nat :=
  let segment_size := total_lines / 10 in
  if decide (i = 9) then (9 * segment_size, total_lines)
  else (i * segment_size, (i + 1) * segment_size).

(** An analyzer that holds the given lines. *)
Definition loaded (ls : list str) : SpiritedAwayAnalyzer :=
  {| script_file := SCRIPT_NAME;
     script_text := Py.join [10%N] ls;
     lines := ls;
     characters := [] |}.

(** The lines of a script that mention [char]: stripped, scanned, and
    containing the name whatever the case. *)
Definition matched {U : UnicodeDB} (char : str) (ls : list str) : list str :=
  filter (fun l => scanned l && mentions l char) (Py.strip <$> ls).

(** A world for running [main]: every drawing call advances a counter
    that stands for the random state of the layouts. *)
Definition counting_renderers : Renderers nat :=
  {| render_wordcloud _ w := S w;
     render_bar_chart _ w := S w;
     render_line_chart _ _ w := S w;
     render_network G w := w + length (Nx.nodes G) |}.

(** The neighbour dict of a node, empty for a node the graph does not
    have. *)
Definition row (G : Nx.Graph) (n : str) : Dict.t Z :=
  default [] (Dict.get G n).

(** Every neighbour dict has its keys once. *)
Definition rows_nodup (G : Nx.Graph) : Prop :=
  Forall (fun r => NoDup (Dict.keys r.2)) G.

(** The number of edges of the list that are incident to [n]. *)
Definition incident_edges (n : str) (es : list (str * str)) : nat :=
  length (filter (fun e => Nx.incident n e) es).

(** The markup delimiters of the three patterns. *)
Definition delimiters : list char :=
  [Re.LT; Re.GT; Re.STAR; Re.LBRACKET; Re.RBRACKET].

(** What the lower-case mapping of the Unicode database does with the
    delimiters: no mapping is empty, a delimiter maps to itself, and no
    other character maps to a string with a delimiter in it. *)
Definition lower_keeps_delimiters (U : UnicodeDB) : Prop :=
  (forall x, to_lower_full x <> []) /\
  (forall d, d ∈ delimiters ->
     to_lower_full d = [d] /\ forall x, x <> d -> d ∉ to_lower_full x).

(** ** The drawing data of [create_character_network]

    The node sizes and edge widths the method computes from the graph before
    it draws; [None] stands for the [KeyError] of a node or edge the graph
    does not have. *)

(** [[G.degree(node) * 500 + 1000 for node in G.nodes()]]. *)
Definition node_sizes (G : Nx.Graph) : option (list nat) :=
  mapM (fun node => d ← Nx.degree G node; Some (d * 500 + 1000))
       (Nx.nodes G).

(** [[G[u][v]['weight'] for u, v in edges]]. *)
Definition edge_weights (G : Nx.Graph) : option (list Z) :=
  mapM (fun e => Nx.weight G e.1 e.2) (Nx.edges G).

(** [[w*2 for w in weights]]. *)
Definition edge_widths (G : Nx.Graph) : option (list Z) :=
  match edge_weights G with
  | Some weights => Some ((fun w => (w * 2)%Z) <$> weights)
  | None => None
  end.

(** A match of the pattern [o[^c]+c] somewhere in [s]. *)
Definition has_span (o c : char) (s : str) : Prop :=
  exists before body after,
    s = before ++ o :: body ++ c :: after /\ body <> [] /\ c ∉ body.

(** The line feed, the separator of [load_script]. *)
Definition LF : char := 10%N.

(** Every opening delimiter [o] of [s] has the closing delimiter [c] right
    after it or nowhere after it: no match of [o[^c]+c] can start there. *)
Fixpoint blocked (o c : char) (s : str) : Prop :=
  match s with
  | [] => True
  | x :: t => (x = o -> head t = Some c \/ c ∉ t) /\ blocked o c t
  end.

(** The carriage return. *)
Definition CR : char := 13%N.

(** What text mode does to the decoded content of a file that is opened
    with [open(file, 'r')], so with [newline=None]: every CR LF and every
    CR that is left becomes one LF. *)
Fixpoint universal_newlines (s : str) : str :=
  match s with
  | [] => []
  | c :: t =>
      if (c =? CR)%N then
        LF :: match t with
              | c' :: t' =>
                  if (c' =? LF)%N then universal_newlines t'
                  else universal_newlines t
              | [] => []
              end
      else c :: universal_newlines t
  end.

(** [open(file, 'r', encoding='utf-8')] followed by [f.read()]: [disk]
    gives the decoded content of a file, [None] when the file cannot be
    opened or decoded. *)
Definition open_text (disk : str -> option str) (file : str) : option str :=
  universal_newlines <$> disk file.

(** * Properties *)

(** ** Python strings *)

Lemma startswith_spec (s p : str) :
  Py.startswith s p = true <-> exists rest, s = p ++ rest.
Proof.
  revert s; induction p as [|a p IH]; intros s.
  - destruct s; (split; [intros _; by eexists | done]).
  - destruct s as [|b s]; simpl.
    + split; [done | by intros [rest Hrest]].
    + rewrite andb_true_iff, N.eqb_eq, IH. split.
      * intros [-> [rest ->]]. by exists rest.
      * intros [rest Hrest]. simplify_eq. split; [done | by exists rest].
Qed.

Lemma contains_spec (hay needle : str) :
  Py.contains hay needle = true <->
  exists before after, hay = before ++ needle ++ after.
Proof.
  induction hay as [|c hay IH].
  - cbn [Py.contains]. rewrite orb_false_r, startswith_spec. split.
    + intros [rest ->]. by exists [], rest.
    + intros [before [after Heq]]. symmetry in Heq.
      apply app_eq_nil in Heq as [-> Heq].
      apply app_eq_nil in Heq as [-> ->]. by exists [].
  - cbn [Py.contains]. rewrite orb_true_iff, startswith_spec, IH. split.
    + intros [[rest ->] | [before [after ->]]].
      * by exists [], rest.
      * by exists (c :: before), after.
    + intros [[|b before] [after Heq]].
      * left. by exists after.
      * right. simplify_eq/=. by exists before, after.
Qed.

Lemma contains_nil_word (word : str) :
  word <> [] -> Py.contains [] word = false.
Proof. destruct word; [done | by intros _]. Qed.

(** ** Dicts *)

Lemma dict_get_set {V} (d : Dict.t V) k k' v :
  Dict.get (Dict.set d k v) k' =
  if decide (k' = k) then Some v else Dict.get d k'.
Proof.
  induction d as [|[k0 v0] d IH]; simpl.
  - by repeat case_decide.
  - repeat (case_decide; simplify_eq/=); try done; by repeat case_decide.
Qed.

Lemma dict_get_modify {V} (f : V -> V) (d : Dict.t V) k k' :
  Dict.get (Dict.modify f d k) k' =
  if decide (k' = k) then f <$> Dict.get d k' else Dict.get d k'.
Proof.
  induction d as [|[k0 v0] d IH]; simpl.
  - by case_decide.
  - repeat (case_decide; simplify_eq/=); try done; by repeat case_decide.
Qed.

Lemma dict_keys_modify {V} (f : V -> V) (d : Dict.t V) k :
  Dict.keys (Dict.modify f d k) = Dict.keys d.
Proof.
  unfold Dict.keys. induction d as [|[k0 v0] d IH]; simpl; [done|].
  case_decide; csimpl; [done | by f_equal].
Qed.

Lemma dict_keys_set {V} (d : Dict.t V) k v :
  Dict.keys (Dict.set d k v) =
  if Dict.mem d k then Dict.keys d else Dict.keys d ++ [k].
Proof.
  unfold Dict.keys, Dict.mem. induction d as [|[k0 v0] d IH]; simpl; [done|].
  case_decide; simplify_eq/=; [done|].
  destruct (Dict.get d k); csimpl; by f_equal.
Qed.

Lemma dict_get_None {V} (d : Dict.t V) k :
  Dict.get d k = None <-> k ∉ Dict.keys d.
Proof.
  unfold Dict.keys. induction d as [|[k0 v0] d IH]; simpl.
  - split; [intros _; apply not_elem_of_nil | done].
  - rewrite not_elem_of_cons. case_decide; simplify_eq/=.
    + split; [done | by intros [? _]].
    + rewrite IH. tauto.
Qed.

Lemma dict_get_Some_keys {V} (d : Dict.t V) k :
  is_Some (Dict.get d k) <-> k ∈ Dict.keys d.
Proof.
  destruct (decide (k ∈ Dict.keys d)) as [Hin|Hnin].
  - split; [done|]. intros _. destruct (Dict.get d k) eqn:E; [done|].
    by apply dict_get_None in E.
  - apply dict_get_None in Hnin as Hn. rewrite Hn. split; [|done].
    by intros [? ?].
Qed.

Lemma dict_mem_keys {V} (d : Dict.t V) k :
  Dict.mem d k = true <-> k ∈ Dict.keys d.
Proof.
  rewrite <- dict_get_Some_keys. unfold Dict.mem.
  destruct (Dict.get d k); split; try done; by intros [? ?].
Qed.

Lemma dict_keys_NoDup_set {V} (d : Dict.t V) k v :
  NoDup (Dict.keys d) -> NoDup (Dict.keys (Dict.set d k v)).
Proof.
  intros Hd. rewrite dict_keys_set.
  destruct (Dict.mem d k) eqn:E; [done|].
  apply NoDup_app. split_and!; [done | | apply NoDup_singleton].
  intros x Hx ->%list_elem_of_singleton.
  apply dict_mem_keys in Hx. congruence.
Qed.

Lemma dict_from_keys_acc {V} (ks : list str) (v : V) (acc : Dict.t V) k :
  Dict.get (foldl (fun d k => Dict.set d k v) acc ks) k =
  if decide (k ∈ ks) then Some v else Dict.get acc k.
Proof.
  revert acc; induction ks as [|k0 ks IH]; intros acc; simpl.
  - done.
  - rewrite IH, dict_get_set.
    destruct (decide (k ∈ ks)) as [Hin|Hnin].
    + rewrite decide_True; [done | by apply elem_of_cons; right].
    + destruct (decide (k = k0)) as [->|Hne].
      * rewrite decide_True; [done | by apply elem_of_cons; left].
      * rewrite decide_False; [done|].
        intros [?|?]%elem_of_cons; done.
Qed.

Lemma dict_get_from_keys {V} (ks : list str) (v : V) k :
  Dict.get (Dict.from_keys ks v) k = if decide (k ∈ ks) then Some v else None.
Proof. unfold Dict.from_keys. by rewrite dict_from_keys_acc. Qed.

(** ** The mention extractor *)

Section Extractor.
Context {U : UnicodeDB}.

Implicit Types (st : Dict.t (list str) * Dict.t nat) (line char : str).

Lemma record_mention_get line st k char :
  Dict.get (record_mention line st k).1 char =
    (if decide (char = k) then
       if mentions line char then (fun ls => ls ++ [line]) <$> Dict.get st.1 char
       else Dict.get st.1 char
     else Dict.get st.1 char) /\
  Dict.get (record_mention line st k).2 char =
    (if decide (char = k) then
       if mentions line char then S <$> Dict.get st.2 char
       else Dict.get st.2 char
     else Dict.get st.2 char).
Proof.
  unfold record_mention.
  destruct (decide (char = k)) as [->|Hne].
  - destruct (mentions line k); simpl; [|done].
    rewrite !dict_get_modify, !decide_True; done.
  - destruct (mentions line k); simpl; [|done].
    rewrite !dict_get_modify, !decide_False; done.
Qed.

(** A character outside the roster is never touched. *)
Lemma record_mentions_other line roster st char :
  char ∉ roster ->
  Dict.get (foldl (record_mention line) st roster).1 char = Dict.get st.1 char /\
  Dict.get (foldl (record_mention line) st roster).2 char = Dict.get st.2 char.
Proof.
  revert st; induction roster as [|k ks IH]; intros st Hnin; [done|].
  apply not_elem_of_cons in Hnin as [Hne Hnin]. simpl.
  destruct (IH (record_mention line st k) Hnin) as [-> ->].
  destruct (record_mention_get line st k char) as [-> ->].
  rewrite !decide_False; done.
Qed.

(** One line updates a roster character once, and only on a mention. *)
Lemma record_mentions_get line roster st char :
  NoDup roster -> char ∈ roster ->
  Dict.get (foldl (record_mention line) st roster).1 char =
    (if mentions line char then (fun ls => ls ++ [line]) <$> Dict.get st.1 char
     else Dict.get st.1 char) /\
  Dict.get (foldl (record_mention line) st roster).2 char =
    (if mentions line char then S <$> Dict.get st.2 char
     else Dict.get st.2 char).
Proof.
  revert st; induction roster as [|k ks IH]; intros st Hnd Hin.
  - by apply elem_of_nil in Hin.
  - apply NoDup_cons in Hnd as [Hk Hnd]. simpl.
    destruct (decide (char = k)) as [->|Hne].
    + destruct (record_mentions_other line ks (record_mention line st k) k Hk)
        as [-> ->].
      destruct (record_mention_get line st k k) as [-> ->].
      rewrite !decide_True; done.
    + apply elem_of_cons in Hin as [?|Hin]; [done|].
      destruct (IH (record_mention line st k) Hnd Hin) as [-> ->].
      destruct (record_mention_get line st k char) as [-> ->].
      rewrite !decide_False; done.
Qed.

(** The state after the whole script, at a roster character. *)
Lemma scan_lines_get roster ls st char :
  NoDup roster -> char ∈ roster ->
  Dict.get (foldl (scan_line roster) st ls).1 char =
    (fun l0 => l0 ++ matched char ls) <$> Dict.get st.1 char /\
  Dict.get (foldl (scan_line roster) st ls).2 char =
    (fun n => n + length (matched char ls)) <$> Dict.get st.2 char.
Proof.
  intros Hnd Hin. revert st; induction ls as [|l ls IH]; intros st.
  - unfold matched; simpl. split.
    + destruct (Dict.get st.1 char); simpl; [by rewrite app_nil_r | done].
    + destruct (Dict.get st.2 char); simpl; [by rewrite Nat.add_0_r | done].
  - simpl. destruct (IH (scan_line roster st l)) as [-> ->].
    unfold matched, scan_line. rewrite fmap_cons, filter_cons.
    destruct (scanned (Py.strip l)) eqn:Hs; simpl; [|done].
    destruct (record_mentions_get (Py.strip l) roster st char Hnd Hin)
      as [-> ->].
    destruct (mentions (Py.strip l) char) eqn:Hm; simpl; [|done].
    split.
    + destruct (Dict.get st.1 char); simpl; [|done].
      by rewrite <- app_assoc.
    + destruct (Dict.get st.2 char); simpl; [|done].
      f_equal. lia.
Qed.

(** The dicts keep the keys they were created with: the updates of the
    loop always find their key. *)
Lemma scan_lines_keys roster ls st :
  Dict.keys (foldl (scan_line roster) st ls).1 = Dict.keys st.1 /\
  Dict.keys (foldl (scan_line roster) st ls).2 = Dict.keys st.2.
Proof.
  assert (forall line names st0,
            Dict.keys (foldl (record_mention line) st0 names).1 = Dict.keys st0.1 /\
            Dict.keys (foldl (record_mention line) st0 names).2 = Dict.keys st0.2)
    as Hrow.
  { intros line names. induction names as [|k ks IH]; intros st0; [done|].
    simpl. destruct (IH (record_mention line st0 k)) as [-> ->].
    unfold record_mention. destruct (mentions line k); [|done].
    simpl. by rewrite !dict_keys_modify. }
  revert st; induction ls as [|l ls IH]; intros st; [done|].
  simpl. destruct (IH (scan_line roster st l)) as [-> ->].
  unfold scan_line. destruct (scanned (Py.strip l)); [apply Hrow | done].
Qed.

Lemma extract_characters_get roster self char :
  NoDup roster -> char ∈ roster ->
  Dict.get (extract_characters_with roster self).1.1 char =
    Some (matched char (lines self)) /\
  Dict.get (extract_characters_with roster self).1.2 char =
    Some (length (matched char (lines self))).
Proof.
  intros Hnd Hin. unfold extract_characters_with. simpl.
  destruct (scan_lines_get roster (lines self)
              (Dict.from_keys roster [], Dict.from_keys roster 0) char Hnd Hin)
    as [-> ->].
  simpl. rewrite !dict_get_from_keys, !decide_True by done. done.
Qed.

End Extractor.

Lemma startswith_singleton (s : str) (c : char) :
  Py.startswith s [c] = true <-> head s = Some c.
Proof.
  rewrite startswith_spec. destruct s as [|b s]; simpl.
  - split; [by intros [? ?] | done].
  - split; [intros [rest ?] | intros ?]; simplify_eq/=; [done | by exists s].
Qed.

Lemma scanned_spec (l : str) :
  scanned l = true <->
  l <> [] /\ head l <> Some Re.LT /\ head l <> Some Re.STAR.
Proof.
  unfold scanned, Re.LT, Re.STAR.
  change (u "<") with [60%N]. change (u "*") with [42%N].
  rewrite !andb_true_iff, !negb_true_iff, bool_decide_eq_false.
  rewrite <- !not_true_iff_false, !startswith_singleton. tauto.
Qed.

Lemma main_characters_NoDup : NoDup main_characters.
Proof. apply (bool_decide_unpack _). by vm_compute. Qed.

Lemma matched_spec {U : UnicodeDB} (char : str) (ls : list str) (l : str) :
  l ∈ matched char ls <->
  (exists raw, raw ∈ ls /\ l = Py.strip raw) /\
  (l <> [] /\ head l <> Some Re.LT /\ head l <> Some Re.STAR) /\
  (exists before after, lower l = before ++ lower char ++ after).
Proof.
  unfold matched. rewrite list_elem_of_filter, list_elem_of_fmap.
  rewrite andb_True, !Is_true_true, scanned_spec.
  unfold mentions. rewrite contains_spec.
  split.
  - intros [[Hs Hc] (raw & Heq & Hraw)]. split; [by exists raw | done].
  - intros [(raw & Hraw & Heq) [Hs Hc]]. split; [done | by exists raw].
Qed.

(** C5: the mention extractor keeps, for a roster character, exactly the
    stripped lines that are non-empty, do not start with [<] or [*], and
    contain the lower-cased name in their lower-cased text.  The line
    ["  Haku walks in.  "] is a mention of Haku, recorded stripped; the line
    ["<Haku enters>"] is a mention of nobody. *)
Theorem extract_characters_scans_trimmed_lines :
  (forall (U : UnicodeDB) names self char,
     NoDup names -> char ∈ names ->
     Dict.get (extract_characters_with names self).1.1 char =
       Some (matched char (lines self)) /\
     forall l, l ∈ matched char (lines self) <->
       (exists raw, raw ∈ lines self /\ l = Py.strip raw) /\
       (l <> [] /\ head l <> Some Re.LT /\ head l <> Some Re.STAR) /\
       (exists before after, lower l = before ++ lower char ++ after)) /\
  (let r := (extract_characters (U:=ucd) (loaded [u "  Haku walks in.  "])).1 in
   Dict.get r.1 (u "Haku") = Some [u "Haku walks in."] /\
   Dict.get r.2 (u "Haku") = Some 1) /\
  (let r := (extract_characters (U:=ucd) (loaded [u "<Haku enters>"])).1 in
   forall char, char ∈ main_characters ->
     Dict.get r.1 char = Some [] /\ Dict.get r.2 char = Some 0).
Proof.
  split_and!.
  - intros U names self char Hnd Hin. split.
    + by apply extract_characters_get.
    + intros l. apply matched_spec.
  - by vm_compute.
  - intros r char Hin. unfold main_characters in Hin.
    repeat (apply elem_of_cons in Hin as [->|Hin]; [by vm_compute|]).
    by apply elem_of_nil in Hin.
Qed.

Lemma extract_characters_scans_trimmed_lines_witness :
  Dict.get (extract_characters_with (U:=ucd) main_characters
              (loaded [u "  Haku walks in.  "])).1.1 (u "Haku") =
    Some (matched (U:=ucd) (u "Haku") [u "  Haku walks in.  "]).
Proof.
  apply (proj1 extract_characters_scans_trimmed_lines ucd main_characters).
  - apply (bool_decide_unpack _). by vm_compute.
  - apply (bool_decide_unpack _). by vm_compute.
Defined.

Lemma matched_snoc {U : UnicodeDB} (char : str) (ls : list str) (line : str) :
  length (matched char (ls ++ [line])) =
  length (matched char ls) +
  (if scanned (Py.strip line) && mentions (Py.strip line) char then 1 else 0).
Proof.
  unfold matched. rewrite fmap_app, filter_app, length_app. f_equal.
  simpl. rewrite filter_cons, filter_nil.
  by destruct (scanned (Py.strip line) && mentions (Py.strip line) char).
Qed.

(** C6: for a roster without repeated names, appending one line to the
    script raises the count of a roster character by one when the stripped
    line is scanned and mentions the character, and by nothing otherwise,
    however often the name occurs in the line; one line can raise the counts
    of several characters.  For the roster Chihiro, Haku and the lines
    "Chihiro sees Haku.", "", "*stage direction*", "Haku is gone." the
    counts are Chihiro = 1 and Haku = 2. *)
Theorem extract_characters_counts_once_per_line :
  (forall (U : UnicodeDB) names self self' line char,
     NoDup names -> char ∈ names ->
     lines self' = lines self ++ [line] ->
     exists n,
       Dict.get (extract_characters_with names self).1.2 char = Some n /\
       Dict.get (extract_characters_with names self').1.2 char =
         Some (n + (if scanned (Py.strip line) && mentions (Py.strip line) char
                    then 1 else 0))) /\
  Dict.get (extract_characters (U:=ucd)
              (loaded [u "Haku! Haku, wait, Haku!"])).1.2 (u "Haku") = Some 1 /\
  (extract_characters_with (U:=ucd) [u "Chihiro"; u "Haku"]
     (loaded [u "Chihiro sees Haku."])).1.2 =
    [(u "Chihiro", 1); (u "Haku", 1)] /\
  (extract_characters_with (U:=ucd) [u "Chihiro"; u "Haku"]
     (loaded [u "Chihiro sees Haku."; u ""; u "*stage direction*";
              u "Haku is gone."])).1.2 =
    [(u "Chihiro", 1); (u "Haku", 2)].
Proof.
  split_and!; [|by vm_compute..].
  intros U names self self' line char Hnd Hin Hlines.
  exists (length (matched char (lines self))).
  destruct (extract_characters_get names self char Hnd Hin) as [_ ->].
  destruct (extract_characters_get names self' char Hnd Hin) as [_ ->].
  by rewrite Hlines, matched_snoc.
Qed.

Lemma extract_characters_counts_once_per_line_witness :
  exists n,
    Dict.get (extract_characters_with (U:=ucd) [u "Chihiro"; u "Haku"]
                (loaded [u "Chihiro sees Haku."])).1.2 (u "Haku") = Some n /\
    Dict.get (extract_characters_with (U:=ucd) [u "Chihiro"; u "Haku"]
                (loaded [u "Chihiro sees Haku."; u "Haku, Haku!"])).1.2
             (u "Haku") =
      Some (n + (if scanned (Py.strip (u "Haku, Haku!")) &&
                    mentions (U:=ucd) (Py.strip (u "Haku, Haku!")) (u "Haku")
                 then 1 else 0)).
Proof.
  apply (proj1 extract_characters_counts_once_per_line ucd
           [u "Chihiro"; u "Haku"]
           (loaded [u "Chihiro sees Haku."])
           (loaded [u "Chihiro sees Haku."; u "Haku, Haku!"])
           (u "Haku, Haku!") (u "Haku")).
  - apply (bool_decide_unpack _). by vm_compute.
  - apply (bool_decide_unpack _). by vm_compute.
  - reflexivity.
Defined.

(** C7: at the extractor's output, for a roster without repeated names,
    the count of every roster character is the length of its list of
    matching lines, and that list is a subsequence of the stripped script
    lines, in script order. *)
Theorem mention_record_invariant (U : UnicodeDB) (names : list str)
    (self : SpiritedAwayAnalyzer) (char : str) :
  NoDup names -> char ∈ names ->
  exists (ms : list str) (n : nat),
    Dict.get (extract_characters_with names self).1.1 char = Some ms /\
    Dict.get (extract_characters_with names self).1.2 char = Some n /\
    n = length ms /\
    ms `sublist_of` (Py.strip <$> lines self).
Proof.
  intros Hnd Hin.
  destruct (extract_characters_get names self char Hnd Hin) as [Hl Hc].
  exists (matched char (lines self)), (length (matched char (lines self))).
  split_and!; [done.. |]. apply sublist_filter.
Qed.

Lemma mention_record_invariant_witness :
  exists (ms : list str) (n : nat),
    Dict.get (extract_characters (U:=ucd)
                (loaded [u "Rin and Haku"; u " Haku "])).1.1 (u "Haku") =
      Some ms /\
    Dict.get (extract_characters (U:=ucd)
                (loaded [u "Rin and Haku"; u " Haku "])).1.2 (u "Haku") =
      Some n /\
    n = length ms /\
    ms `sublist_of` (Py.strip <$> [u "Rin and Haku"; u " Haku "]).
Proof.
  apply (mention_record_invariant ucd main_characters
           (loaded [u "Rin and Haku"; u " Haku "]) (u "Haku")).
  - apply (bool_decide_unpack _). by vm_compute.
  - apply (bool_decide_unpack _). by vm_compute.
Defined.

(** ** The sentiment scorer *)

Lemma count_words_length (words : list str) (text : str) :
  count_words words text =
  length (filter (fun word => Py.contains text word) words).
Proof.
  unfold count_words.
  induction (filter (fun word => Py.contains text word) words) as [|w ws IH];
    [done | by csimpl; f_equal].
Qed.

Lemma count_words_nil_text (words : list str) :
  Forall (fun w => w <> []) words -> count_words words [] = 0.
Proof.
  intros Hne. rewrite count_words_length.
  induction Hne as [|w ws Hw _ IH]; [done|].
  rewrite filter_cons, contains_nil_word by done. exact IH.
Qed.

Lemma sentiment_of_zero : sentiment_of 0 0 = 0%Q.
Proof. reflexivity. Qed.

Lemma sentiment_of_quotient (p n : nat) :
  p + n <> 0 ->
  (sentiment_of p n ==
   inject_Z (Z.of_nat p - Z.of_nat n) / inject_Z (Z.of_nat p + Z.of_nat n))%Q.
Proof.
  intros Hne. unfold sentiment_of.
  destruct (Nat.ltb_spec 0 (p + n)) as [Hlt|]; [|lia].
  rewrite Qmake_Qdiv. f_equiv. unfold inject_Z. f_equal.
  rewrite <- Nat2Z.inj_add.
  destruct (p + n) as [|k] eqn:E; [lia|].
  by rewrite <- Pos.of_nat_succ, Zpos_P_of_succ_nat, Nat2Z.inj_succ.
Qed.

Lemma sentiment_of_bounds (p n : nat) :
  (-1 <= sentiment_of p n)%Q /\ (sentiment_of p n <= 1)%Q.
Proof.
  unfold sentiment_of.
  destruct (Nat.ltb_spec 0 (p + n)) as [Hlt|]; [|done].
  assert (Z.pos (Pos.of_nat (p + n)) = (Z.of_nat p + Z.of_nat n)%Z) as Hden.
  { rewrite <- Nat2Z.inj_add. destruct (p + n) as [|k]; [lia|].
    by rewrite <- Pos.of_nat_succ, Zpos_P_of_succ_nat, Nat2Z.inj_succ. }
  unfold Qle; simpl. rewrite Hden. lia.
Qed.

Section Scorer.
Context {U : UnicodeDB}.

(** The loop over [range(10)] yields the ten segment scores in order. *)
Lemma sentiment_analysis_scores (positive negative : list str)
    (self : SpiritedAwayAnalyzer) :
  (sentiment_analysis_with positive negative self).2 =
  (fun i => text_sentiment positive negative (segment_text (lines self) i))
    <$> seq 0 10.
Proof. reflexivity. Qed.

Lemma sentiment_analysis_lookup (positive negative : list str)
    (self : SpiritedAwayAnalyzer) (i : nat) :
  i < 10 ->
  (sentiment_analysis_with positive negative self).2 !! i =
  Some (text_sentiment positive negative (segment_text (lines self) i)).
Proof.
  intros Hi. rewrite sentiment_analysis_scores, list_lookup_fmap.
  by rewrite lookup_seq_lt.
Qed.

End Scorer.

Lemma segment_lines_inner (ls : list str) (i : nat) :
  i < 9 ->
  segment_lines ls i =
  take (length ls / 10) (drop (i * (length ls / 10)) ls).
Proof.
  intros Hi. unfold segment_lines, segment_bounds, Py.slice.
  destruct (Nat.ltb_spec i 9); [|lia]. f_equal. lia.
Qed.

Lemma segment_lines_last (ls : list str) :
  segment_lines ls 9 = drop (9 * (length ls / 10)) ls.
Proof.
  unfold segment_lines, segment_bounds, Py.slice.
  change (9 <? 9) with false. cbv iota.
  apply take_ge. rewrite length_drop. lia.
Qed.

Lemma chunks_then_rest {A} (xs : list A) (size k : nat) :
  concat ((fun i => take size (drop (i * size) xs)) <$> seq 0 k)
    ++ drop (k * size) xs = xs.
Proof.
  induction k as [|k IH]; [done|].
  rewrite seq_S, fmap_app, concat_app. simpl. rewrite app_nil_r.
  rewrite <- app_assoc.
  replace (drop (size + k * size) xs)
    with (drop size (drop (k * size) xs)) by (rewrite drop_drop; f_equal; lia).
  by rewrite take_drop.
Qed.

Lemma segments_concat (ls : list str) :
  concat (segment_lines ls <$> seq 0 10) = ls.
Proof.
  change (seq 0 10) with (seq 0 9 ++ [9]).
  rewrite fmap_app, concat_app. simpl concat at 2.
  rewrite app_nil_r, segment_lines_last.
  etrans; [|apply (chunks_then_rest ls (length ls / 10) 9)].
  f_equal. f_equal. apply list_fmap_ext. intros j i Hj.
  apply lookup_seq in Hj as [-> Hj]. apply segment_lines_inner. lia.
Qed.

Lemma concat_length {A} (xss : list (list A)) :
  length (concat xss) = sum_list (length <$> xss).
Proof.
  induction xss as [|xs xss IH]; [done|].
  csimpl. by rewrite length_app, IH.
Qed.

Lemma vocabulary_nonempty :
  Forall (fun w => w <> []) positive_words /\
  Forall (fun w => w <> []) negative_words.
Proof. split; repeat (constructor; [done|]); constructor. Qed.

(** C2: the scorer cuts the index range [0, total_lines) into ten
    segments with [segment_size = total_lines // 10]: segment i < 9 spans
    [i*segment_size, (i+1)*segment_size) and segment 9 spans
    [9*segment_size, total_lines).  Each segment ends where the next one
    starts, the segments put end to end are the script, and their lengths
    add up to [total_lines].  Below ten lines the segments 0 to 8 are empty
    and score 0 and segment 9 is the whole script. *)
Theorem sentiment_segments_partition (U : UnicodeDB)
    (self : SpiritedAwayAnalyzer) :
  let ls := lines self in
  let total_lines := length ls in
  (forall i, i < 10 ->
     segment_bounds total_lines i = spec_segment_bounds total_lines i /\
     segment_lines ls i =
       Py.slice ls (segment_bounds total_lines i).1 (segment_bounds total_lines i).2 /\
     length (segment_lines ls i) =
       (segment_bounds total_lines i).2 - (segment_bounds total_lines i).1 /\
     (sentiment_analysis self).2 !! i =
       Some (text_sentiment positive_words negative_words
               (lower (Py.join (u " ") (segment_lines ls i))))) /\
  length (sentiment_analysis self).2 = 10 /\
  (segment_bounds total_lines 0).1 = 0 /\
  (forall i, i < 9 ->
     (segment_bounds total_lines i).2 = (segment_bounds total_lines (S i)).1) /\
  (segment_bounds total_lines 9).2 = total_lines /\
  concat (segment_lines ls <$> seq 0 10) = ls /\
  sum_list (length <$> (segment_lines ls <$> seq 0 10)) = total_lines /\
  (total_lines < 10 ->
     (forall i, i < 9 ->
        segment_lines ls i = [] /\
        (sentiment_analysis self).2 !! i = Some 0%Q) /\
     segment_lines ls 9 = ls).
Proof.
  intros ls total_lines. subst total_lines.
  assert (forall i, i < 9 -> segment_lines ls i =
            take (length ls / 10) (drop (i * (length ls / 10)) ls)) as Hin
    by (intros; by apply segment_lines_inner).
  pose proof (Nat.Div0.mul_div_le (length ls) 10) as Hdiv.
  split_and!.
  - intros i Hi. split_and!.
    + unfold segment_bounds, spec_segment_bounds.
      destruct (decide (i = 9)) as [->|Hne]; [done|].
      destruct (Nat.ltb_spec i 9); [|lia]. f_equal; lia.
    + unfold segment_lines. by destruct (segment_bounds (length ls) i).
    + destruct (decide (i = 9)) as [->|Hne].
      * rewrite segment_lines_last, length_drop. unfold segment_bounds.
        change (9 <? 9) with false. cbn [fst snd]. lia.
      * rewrite Hin, length_take, length_drop by lia.
        unfold segment_bounds. destruct (Nat.ltb_spec i 9); [|lia].
        cbn [fst snd]. nia.
    + unfold sentiment_analysis.
      rewrite sentiment_analysis_lookup by exact Hi. reflexivity.
  - unfold sentiment_analysis.
    rewrite sentiment_analysis_scores, length_fmap, length_seq. reflexivity.
  - done.
  - intros i Hi. unfold segment_bounds.
    destruct (Nat.ltb_spec i 9); [|lia].
    destruct (S i <? 9); cbn [fst snd]; lia.
  - done.
  - apply segments_concat.
  - by rewrite <- concat_length, segments_concat.
  - intros Hsmall.
    assert (length ls / 10 = 0) as Hz by (by apply Nat.div_small).
    split.
    + intros i Hi.
      assert (segment_lines ls i = []) as Hempty by (by rewrite Hin, Hz).
      split; [exact Hempty|].
      unfold sentiment_analysis. rewrite sentiment_analysis_lookup by lia.
      unfold segment_text. fold ls. rewrite Hempty.
      change (lower (Py.join (u " ") [])) with (@nil N).
      unfold text_sentiment. destruct vocabulary_nonempty as [Hp Hn].
      rewrite !count_words_nil_text by assumption. reflexivity.
    + by rewrite segment_lines_last, Hz.
Qed.

Lemma sentiment_segments_partition_witness :
  let self := loaded [u "good"; u "bad"; u "good bad"] in
  (segment_lines (lines self) 2 = [] /\
   (sentiment_analysis (U:=ucd) self).2 !! 2 = Some 0%Q) /\
  segment_lines (lines self) 9 = lines self.
Proof.
  intros self.
  destruct (sentiment_segments_partition ucd self)
    as (_ & _ & _ & _ & _ & _ & _ & Hsmall).
  destruct Hsmall as [Hinner Hlast]; [simpl; lia|].
  split; [apply Hinner; lia | exact Hlast].
Defined.

(** C3, as the specification words it, fails: the scorer does not count
    occurrences.  With "good" twice and "bad" once the occurrence counts give
    1/3 and the scorer gives 0. *)
Lemma occurrence_count_differs :
  spec_count_occurrences [u "good"] (u "good good bad") = 2 /\
  count_words [u "good"] (u "good good bad") = 1 /\
  ~ (text_sentiment [u "good"] [u "bad"] (u "good good bad") ==
     spec_text_sentiment [u "good"] [u "bad"] (u "good good bad"))%Q.
Proof. split_and!; [done | done | by vm_compute]. Qed.

(** C3, amended: the text of segment i is its lines joined with one space
    and lower-cased; [pos_count] and [neg_count] are the numbers of positive
    and negative vocabulary words that are substrings of that text, each
    word counted once however often it occurs; the score is
    [(pos_count - neg_count) / (pos_count + neg_count)] when that sum is not
    zero and 0 otherwise.  With positive {good}, negative {bad} and the text
    "this is good and bad" the score is 0. *)
Theorem segment_score_counts_words_present (U : UnicodeDB)
    (positive negative : list str) (self : SpiritedAwayAnalyzer) (i : nat) :
  i < 10 ->
  let text := lower (Py.join (u " ") (segment_lines (lines self) i)) in
  let pos_count := length (filter (fun w => Py.contains text w) positive) in
  let neg_count := length (filter (fun w => Py.contains text w) negative) in
  (sentiment_analysis_with positive negative self).2 !! i =
    Some (sentiment_of pos_count neg_count) /\
  (forall w, Py.contains text w = true <->
             exists before after, text = before ++ w ++ after) /\
  (pos_count + neg_count <> 0 ->
   (sentiment_of pos_count neg_count ==
    inject_Z (Z.of_nat pos_count - Z.of_nat neg_count) /
    inject_Z (Z.of_nat pos_count + Z.of_nat neg_count))%Q) /\
  (pos_count + neg_count = 0 -> sentiment_of pos_count neg_count = 0%Q) /\
  (text_sentiment [u "good"] [u "bad"] (u "this is good and bad") == 0)%Q.
Proof.
  intros Hi text pos_count neg_count. split_and!.
  - rewrite sentiment_analysis_lookup by done.
    unfold text_sentiment, segment_text. by rewrite !count_words_length.
  - intros w. apply contains_spec.
  - apply sentiment_of_quotient.
  - intros Hz. assert (pos_count = 0 /\ neg_count = 0) as [-> ->] by lia.
    apply sentiment_of_zero.
  - by vm_compute.
Qed.

Lemma segment_score_counts_words_present_witness :
  (sentiment_analysis_with (U:=ucd) [u "good"] [u "bad"]
     (loaded [u "This is GOOD"; u "and bad"])).2 !! 9 = Some (0 # 2).
Proof.
  apply (segment_score_counts_words_present ucd [u "good"] [u "bad"]
           (loaded [u "This is GOOD"; u "and bad"]) 9).
  lia.
Defined.

(** C4: whatever the script and the two vocabularies, there are ten
    scores, each between -1 and 1, and the score of a segment with no
    positive and no negative hit is exactly 0: the quotient is taken only
    when the number of hits is positive. *)
Theorem sentiment_scores_bounded (U : UnicodeDB)
    (positive negative : list str) (self : SpiritedAwayAnalyzer) :
  let scores := (sentiment_analysis_with positive negative self).2 in
  length scores = 10 /\
  (forall s, s ∈ scores -> (-1 <= s)%Q /\ (s <= 1)%Q) /\
  (forall i, i < 10 ->
     count_words positive (segment_text (lines self) i) = 0 ->
     count_words negative (segment_text (lines self) i) = 0 ->
     scores !! i = Some 0%Q) /\
  (forall p n, p + n = 0 -> sentiment_of p n = 0%Q) /\
  (forall p n, p + n <> 0 ->
     sentiment_of p n = (Z.of_nat p - Z.of_nat n) # Pos.of_nat (p + n)).
Proof.
  intros scores. subst scores. split_and!.
  - by rewrite sentiment_analysis_scores, length_fmap, length_seq.
  - intros s Hs. rewrite sentiment_analysis_scores in Hs.
    apply list_elem_of_fmap in Hs as (i & -> & _).
    apply sentiment_of_bounds.
  - intros i Hi Hp Hn. rewrite sentiment_analysis_lookup by done.
    unfold text_sentiment. by rewrite Hp, Hn.
  - intros p n Hz. assert (p = 0 /\ n = 0) as [-> ->] by lia. done.
  - intros p n Hnz. unfold sentiment_of.
    destruct (Nat.ltb_spec 0 (p + n)); [done | lia].
Qed.

Lemma sentiment_scores_bounded_witness :
  let scores := (sentiment_analysis_with (U:=ucd) [u "good"] [u "bad"]
                   (loaded [u "so bad"])).2 in
  ((-1 <= -1 # 1)%Q /\ (-1 # 1 <= 1)%Q) /\ scores !! 3 = Some 0%Q.
Proof.
  intros scores.
  destruct (sentiment_scores_bounded ucd [u "good"] [u "bad"]
              (loaded [u "so bad"]))
    as (_ & Hbound & Hzero & _).
  split.
  - apply Hbound. apply (list_elem_of_lookup_2 _ 9). vm_compute. reflexivity.
  - apply Hzero; [lia | vm_compute; reflexivity | vm_compute; reflexivity].
Defined.

(** ** The report *)

Lemma py_max_empty {A} (key : A -> nat) (xs : list A) :
  (exists e, py_max key xs = Raise e) <-> xs = [].
Proof.
  destruct xs; simpl; split; try done.
  - intros _. by exists ValueError.
  - by intros [e ?].
Qed.

(** The report completes exactly when some roster character is mentioned;
    otherwise [max] raises on the empty dict after the header lines. *)
Lemma generate_summary_report_outcome {U : UnicodeDB} (names : list str)
    (self : SpiritedAwayAnalyzer) :
  let filtered_chars :=
    Dict.filter_values (fun v => 0 <? v)
      (extract_characters_with names self).1.2 in
  (generate_summary_report_with names self).1.2 =
    if decide (filtered_chars = []) then Raise ValueError else Ok true.
Proof.
  intros filtered_chars. subst filtered_chars.
  unfold generate_summary_report_with.
  destruct (extract_characters_with names self) as [[cl cc] self'].
  cbn [fst snd].
  destruct (Dict.filter_values (fun v => 0 <? v) cc) as [|kv d]; [done|].
  by rewrite decide_False by done.
Qed.

(** C1: on a script in which no roster character is mentioned, here the
    empty file, the report prints its header and the count of detected
    characters and then raises [ValueError] from [max] on the empty dict: it
    neither omits the most-active line and carries on nor prints a message. *)
Theorem generate_summary_report_raises_without_mentions (U : UnicodeDB) :
  let self := (load_script (fun _ => Some []) (init SCRIPT_NAME)).2 in
  lines self = [[]] /\
  (extract_characters self).1.2 = (fun c => (c, 0)) <$> main_characters /\
  (generate_summary_report self).1 =
    ([Rule; Title; TitleZh; Rule; ScriptLength 1; ScriptLengthZh 1;
      CharactersDetected 0; CharactersDetectedZh],
     Raise ValueError).
Proof. split_and!; reflexivity. Qed.

(** ** The relationship graph *)

Lemma dict_mem_set {V} (d : Dict.t V) k v k' :
  Dict.mem (Dict.set d k v) k' = if decide (k' = k) then true else Dict.mem d k'.
Proof. unfold Dict.mem. rewrite dict_get_set. by case_decide. Qed.

Lemma dict_get_elem {V} (d : Dict.t V) k v :
  Dict.get d k = Some v -> (k, v) ∈ d.
Proof.
  induction d as [|[k0 v0] d IH]; simpl; [done|].
  case_decide; intros ?; simplify_eq.
  - apply elem_of_cons. by left.
  - apply elem_of_cons. right. by apply IH.
Qed.

Lemma dict_get_split {V} (d : Dict.t V) k v :
  Dict.get d k = Some v ->
  exists pre post, d = pre ++ (k, v) :: post /\ k ∉ Dict.keys pre.
Proof.
  induction d as [|[k0 v0] d IH]; simpl; [done|].
  case_decide; intros Hget; simplify_eq.
  - exists [], d. split; [done | apply not_elem_of_nil].
  - destruct (IH Hget) as (pre & post & -> & Hpre).
    exists ((k0, v0) :: pre), post. split; [done|].
    unfold Dict.keys. csimpl. by apply not_elem_of_cons.
Qed.

Lemma dict_Forall_set {V} (P : str * V -> Prop) (d : Dict.t V) k v :
  Forall P d -> P (k, v) -> Forall P (Dict.set d k v).
Proof.
  intros Hd Hkv. induction Hd as [|[k0 v0] d H0 Hd IH]; simpl.
  - by repeat constructor.
  - case_decide; constructor; done.
Qed.

Lemma dict_Forall_modify {V} (P : str * V -> Prop) (f : V -> V)
    (d : Dict.t V) k :
  Forall P d -> (forall v, P (k, v) -> P (k, f v)) ->
  Forall P (Dict.modify f d k).
Proof.
  intros Hd Hf. induction Hd as [|[k0 v0] d H0 Hd IH]; simpl; [done|].
  case_decide; simplify_eq; constructor; auto.
Qed.

Lemma has_edge_row (G : Nx.Graph) a b :
  Nx.has_edge G a b = Dict.mem (row G a) b.
Proof. unfold Nx.has_edge, row. by destruct (Dict.get G a). Qed.

Lemma get_add_node (G : Nx.Graph) n a :
  Dict.get (Nx.add_node G n) a =
  if decide (a = n) then Some (row G n) else Dict.get G a.
Proof.
  unfold Nx.add_node, Dict.mem, row.
  destruct (Dict.get G n) as [r|] eqn:E; simpl.
  - case_decide; by subst.
  - rewrite dict_get_set. by case_decide.
Qed.

Lemma row_add_node (G : Nx.Graph) n a : row (Nx.add_node G n) a = row G a.
Proof.
  unfold row at 1. rewrite get_add_node. case_decide; by subst.
Qed.

Lemma get_add_edge (G : Nx.Graph) u v w a :
  Dict.get (Nx.add_edge G u v w) a =
  if decide (a = v) then
    Some (Dict.set (if decide (v = u) then Dict.set (row G u) v w
                    else row G v) u w)
  else if decide (a = u) then Some (Dict.set (row G u) v w)
  else Dict.get G a.
Proof.
  unfold Nx.add_edge. rewrite !dict_get_modify, !get_add_node.
  destruct (decide (a = v)) as [->|Hav].
  - rewrite row_add_node. by destruct (decide (v = u)) as [->|Hvu].
  - by destruct (decide (a = u)) as [->|Hau].
Qed.

Lemma has_edge_add_node (G : Nx.Graph) n a b :
  Nx.has_edge (Nx.add_node G n) a b = Nx.has_edge G a b.
Proof. by rewrite !has_edge_row, row_add_node. Qed.

Lemma has_edge_add_edge (G : Nx.Graph) u v w a b :
  Nx.has_edge (Nx.add_edge G u v w) a b = true <->
  Nx.has_edge G a b = true \/ (a = u /\ b = v) \/ (a = v /\ b = u).
Proof.
  rewrite (has_edge_row G). unfold Nx.has_edge. rewrite get_add_edge.
  unfold row.
  destruct (decide (a = v)) as [->|Hav].
  - rewrite dict_mem_set. destruct (decide (b = u)) as [->|Hbu]; [tauto|].
    destruct (decide (v = u)) as [->|Hvu].
    + rewrite dict_mem_set. destruct (decide (b = u)); [done|]. tauto.
    + tauto.
  - destruct (decide (a = u)) as [->|Hau].
    + rewrite dict_mem_set. destruct (decide (b = v)) as [->|Hbv]; tauto.
    + destruct (Dict.get G a); tauto.
Qed.

Lemma keys_add_node (G : Nx.Graph) n :
  Dict.keys (Nx.add_node G n) =
  if Dict.mem G n then Dict.keys G else Dict.keys G ++ [n].
Proof.
  unfold Nx.add_node. destruct (Dict.mem G n) eqn:E; [done|].
  by rewrite dict_keys_set, E.
Qed.

Lemma elem_of_keys_add_node (G : Nx.Graph) n a :
  a ∈ Dict.keys (Nx.add_node G n) <-> a ∈ Dict.keys G \/ a = n.
Proof.
  rewrite keys_add_node. destruct (Dict.mem G n) eqn:E.
  - apply dict_mem_keys in E. split; [by left | by intros [?| ->]].
  - by rewrite elem_of_app, list_elem_of_singleton.
Qed.

Lemma keys_add_edge (G : Nx.Graph) u v w :
  Dict.keys (Nx.add_edge G u v w) =
  Dict.keys (Nx.add_node (Nx.add_node G u) v).
Proof. unfold Nx.add_edge. by rewrite !dict_keys_modify. Qed.

(** The shape of a graph: every node once, and in every neighbour dict
    every neighbour once. *)
Lemma add_node_shape (G : Nx.Graph) n :
  NoDup (Dict.keys G) /\ rows_nodup G ->
  NoDup (Dict.keys (Nx.add_node G n)) /\ rows_nodup (Nx.add_node G n).
Proof.
  intros [Hk Hr]. unfold Nx.add_node. destruct (Dict.mem G n); [done|].
  split; [by apply dict_keys_NoDup_set|].
  apply dict_Forall_set; [done | apply NoDup_nil_2].
Qed.

Lemma add_edge_shape (G : Nx.Graph) u v w :
  NoDup (Dict.keys G) /\ rows_nodup G ->
  NoDup (Dict.keys (Nx.add_edge G u v w)) /\ rows_nodup (Nx.add_edge G u v w).
Proof.
  intros HG.
  destruct (add_node_shape _ v (add_node_shape _ u HG)) as [Hk Hr].
  split; [by rewrite keys_add_edge|].
  unfold Nx.add_edge.
  apply dict_Forall_modify; [apply dict_Forall_modify; [done|]|];
    intros nbrs Hn; by apply dict_keys_NoDup_set.
Qed.

Lemma add_nodes_spec (G : Nx.Graph) (ns : list str) :
  (forall a b, Nx.has_edge (foldl Nx.add_node G ns) a b = Nx.has_edge G a b) /\
  (forall a, a ∈ Dict.keys (foldl Nx.add_node G ns) <->
             a ∈ Dict.keys G \/ a ∈ ns) /\
  (NoDup (Dict.keys G) /\ rows_nodup G ->
   NoDup (Dict.keys (foldl Nx.add_node G ns)) /\
   rows_nodup (foldl Nx.add_node G ns)).
Proof.
  revert G; induction ns as [|n ns IH]; intros G; simpl.
  - split_and!; [done | | done].
    intros a. split; [by left | intros [?|?%elem_of_nil]; done].
  - destruct (IH (Nx.add_node G n)) as (He & Hk & Hs). split_and!.
    + intros a b. by rewrite He, has_edge_add_node.
    + intros a. rewrite Hk, elem_of_keys_add_node, elem_of_cons. tauto.
    + intros HG. by apply Hs, add_node_shape.
Qed.

Lemma add_relationships_spec (names : list str) (G : Nx.Graph)
    (rels : list (str * str * Z)) :
  (forall a b,
     Nx.has_edge (foldl (add_relationship names) G rels) a b = true <->
     Nx.has_edge G a b = true \/
     exists w, ((a, b, w) ∈ rels \/ (b, a, w) ∈ rels) /\
               a ∈ names /\ b ∈ names) /\
  ((forall n, n ∈ names -> n ∈ Dict.keys G) ->
   Dict.keys (foldl (add_relationship names) G rels) = Dict.keys G) /\
  (NoDup (Dict.keys G) /\ rows_nodup G ->
   NoDup (Dict.keys (foldl (add_relationship names) G rels)) /\
   rows_nodup (foldl (add_relationship names) G rels)).
Proof.
  revert G; induction rels as [|[[u v] w] rels IH]; intros G; simpl.
  - split_and!; [|done..].
    intros a b. split; [by left|]. intros [?|(w & [?%elem_of_nil|?%elem_of_nil] & _)]; done.
  - destruct (bool_decide (u ∈ names) && bool_decide (v ∈ names)) eqn:Hguard.
    + apply andb_true_iff in Hguard as [Hu%bool_decide_eq_true Hv%bool_decide_eq_true].
      destruct (IH (Nx.add_edge G u v w)) as (He & Hk & Hs). split_and!.
      * intros a b. rewrite He, has_edge_add_edge. split.
        -- intros [[?|[[-> ->]|[-> ->]]]|(w' & [Hin|Hin] & Ha & Hb)].
           ++ by left.
           ++ right. exists w. split_and!; [left; apply elem_of_cons; by left | done..].
           ++ right. exists w. split_and!; [right; apply elem_of_cons; by left | done..].
           ++ right. exists w'. split_and!; [left; apply elem_of_cons; by right | done..].
           ++ right. exists w'. split_and!; [right; apply elem_of_cons; by right | done..].
        -- intros [?|(w' & [Hin|Hin] & Ha & Hb)]; [by left; left | |].
           ++ apply elem_of_cons in Hin as [?|Hin]; simplify_eq.
              ** left. right. by left.
              ** right. exists w'. split; [by left | done].
           ++ apply elem_of_cons in Hin as [?|Hin]; simplify_eq.
              ** left. right. by right.
              ** right. exists w'. split; [by right | done].
      * intros Hnodes.
        assert (Dict.keys (Nx.add_edge G u v w) = Dict.keys G) as Hsame.
        { rewrite keys_add_edge, !keys_add_node.
          assert (Dict.mem G u = true) as Hmu by (by apply dict_mem_keys, Hnodes).
          rewrite Hmu.
          assert (Dict.mem (Nx.add_node G u) v = true) as ->; [|done].
          apply dict_mem_keys, elem_of_keys_add_node. left. by apply Hnodes. }
        rewrite Hk; [done|]. intros n Hn. rewrite Hsame. by apply Hnodes.
      * intros HG. by apply Hs, add_edge_shape.
    + destruct (IH G) as (He & Hk & Hs). split_and!; [|done..].
      intros a b. rewrite He.
      assert (~ (u ∈ names /\ v ∈ names)) as Hnot.
      { intros [Hu Hv]. by rewrite !bool_decide_eq_true_2 in Hguard. }
      split.
      * intros [?|(w' & [Hin|Hin] & Ha & Hb)]; [by left | |].
        -- right. exists w'. split; [left; apply elem_of_cons; by right | done].
        -- right. exists w'. split; [right; apply elem_of_cons; by right | done].
      * intros [?|(w' & [Hin|Hin] & Ha & Hb)]; [by left | |].
        -- apply elem_of_cons in Hin as [?|Hin]; simplify_eq; [tauto|].
           right. exists w'. split; [by left | done].
        -- apply elem_of_cons in Hin as [?|Hin]; simplify_eq; [tauto|].
           right. exists w'. split; [by right | done].
Qed.

(** *** Counting the edges at a node *)

Lemma filter_none {A} (P : A -> Prop) `{!forall x, Decision (P x)}
    (l : list A) :
  (forall x, x ∈ l -> ~ P x) -> filter P l = [].
Proof.
  induction l as [|x l IH]; intros Hl; [done|].
  rewrite filter_cons_False by (apply Hl, elem_of_cons; by left).
  apply IH. intros y Hy. apply Hl, elem_of_cons. by right.
Qed.

Lemma filter_ext_elem {A} (P Q : A -> Prop) `{!forall x, Decision (P x)}
    `{!forall x, Decision (Q x)} (l : list A) :
  (forall x, x ∈ l -> (P x <-> Q x)) -> filter P l = filter Q l.
Proof.
  induction l as [|x l IH]; intros Hl; [done|].
  rewrite !filter_cons.
  rewrite IH by (intros y Hy; apply Hl, elem_of_cons; by right).
  apply decide_ext, Hl, elem_of_cons. by left.
Qed.

Lemma incident_edges_app (n : str) (es1 es2 : list (str * str)) :
  incident_edges n (es1 ++ es2) = incident_edges n es1 + incident_edges n es2.
Proof. unfold incident_edges. by rewrite filter_app, length_app. Qed.

(** The edges reported at [n] itself all count. *)
Lemma incident_edges_own_row (n : str) (ms : list str) :
  incident_edges n ((fun m => (n, m)) <$> ms) = length ms.
Proof.
  unfold incident_edges. induction ms as [|m ms IH]; [done|].
  csimpl. rewrite filter_cons_True; [by simpl; rewrite IH|].
  unfold Nx.incident. simpl. by rewrite bool_decide_eq_true_2.
Qed.

(** The edges reported at another node [k] count when they lead to [n]. *)
Lemma incident_edges_other_row (n k : str) (ms : list str) :
  k <> n -> NoDup ms ->
  incident_edges n ((fun m => (k, m)) <$> ms) = if decide (n ∈ ms) then 1 else 0.
Proof.
  intros Hk Hnd. unfold incident_edges.
  induction Hnd as [|m ms Hm Hnd IH]; [done|].
  csimpl. destruct (decide (m = n)) as [->|Hmn].
  - rewrite filter_cons_True.
    2:{ unfold Nx.incident. cbn [fst snd].
        rewrite (bool_decide_eq_true_2 (n = n)) by done.
        by rewrite orb_true_r. }
    rewrite decide_True by (apply elem_of_cons; by left).
    rewrite decide_False in IH by done. cbn [length]. by rewrite IH.
  - rewrite filter_cons_False.
    2:{ unfold Nx.incident. cbn [fst snd].
        rewrite !bool_decide_eq_false_2 by done. by intros []. }
    rewrite IH. apply decide_ext. rewrite elem_of_cons.
    split; [by right | by intros [?|?]].
Qed.

(** Once [n] has been seen, later rows report no edge at [n]. *)
Lemma incident_edges_seen (n : str) (adj : Nx.Graph) (seen : list str) :
  n ∈ seen -> n ∉ Dict.keys adj ->
  incident_edges n (Nx.edges_from seen adj) = 0.
Proof.
  revert seen; induction adj as [|[k nbrs] adj IH]; intros seen Hs Hk; [done|].
  unfold Dict.keys in Hk. csimpl in Hk. apply not_elem_of_cons in Hk as [Hne Hk].
  simpl. rewrite incident_edges_app, IH; [|apply elem_of_cons; by right | done].
  rewrite Nat.add_0_r. unfold incident_edges.
  rewrite filter_none; [done|]. intros [a b] Hin.
  apply list_elem_of_fmap in Hin as (m & ? & Hm). simplify_eq.
  apply list_elem_of_filter in Hm as [Hm _].
  unfold Nx.incident. cbn [fst snd].
  rewrite (bool_decide_eq_false_2 (k = n)) by done.
  rewrite bool_decide_eq_false_2; [by intros [] | by intros ->].
Qed.

(** The edges at [n] in a graph whose rows before [n] are [pre]: one for
    each earlier row that lists [n], and those of [n]'s own row that lead
    to a node not met before. *)
Lemma incident_edges_at (n : str) (nbrs : Dict.t Z)
    (post pre : list (str * Dict.t Z)) (seen : list str) :
  n ∉ Dict.keys post -> n ∉ seen -> n ∉ Dict.keys pre -> rows_nodup pre ->
  incident_edges n (Nx.edges_from seen (pre ++ (n, nbrs) :: post)) =
  length (filter (fun r => n ∈ Dict.keys r.2) pre) +
  length (filter (fun m => m ∉ Dict.keys pre ++ seen) (Dict.keys nbrs)).
Proof.
  intros Hpost. revert seen.
  induction pre as [|[k nbk] pre IH]; intros seen Hseen Hpre Hrows.
  - simpl. rewrite incident_edges_app, incident_edges_own_row.
    rewrite incident_edges_seen; [lia | apply elem_of_cons; by left | done].
  - unfold Dict.keys in Hpre. csimpl in Hpre.
    apply not_elem_of_cons in Hpre as [Hne Hpre].
    apply Forall_cons in Hrows as [Hrow Hrows]. cbn [snd] in Hrow.
    cbn [app Nx.edges_from]. rewrite incident_edges_app.
    rewrite IH; [| by apply not_elem_of_cons | done | done].
    rewrite incident_edges_other_row; [| done | by apply NoDup_filter].
    rewrite filter_cons. cbn [snd].
    rewrite (list_filter_iff (fun m => m ∉ Dict.keys pre ++ k :: seen)
               (fun m => m ∉ Dict.keys ((k, nbk) :: pre) ++ seen)).
    2:{ intros m. unfold Dict.keys. csimpl.
        rewrite !elem_of_app, !elem_of_cons, !elem_of_app. tauto. }
    destruct (decide (n ∈ Dict.keys nbk)) as [Hin|Hnin].
    + rewrite decide_True by (by apply list_elem_of_filter). simpl. lia.
    + rewrite decide_False; [lia|]. by intros [_ ?]%list_elem_of_filter.
Qed.

Lemma dict_elem_get {V} (d : Dict.t V) k v :
  NoDup (Dict.keys d) -> (k, v) ∈ d -> Dict.get d k = Some v.
Proof.
  unfold Dict.keys. induction d as [|[k0 v0] d IH]; csimpl; intros Hnd Hin.
  - by apply elem_of_nil in Hin.
  - apply NoDup_cons in Hnd as [Hk0 Hnd].
    apply elem_of_cons in Hin as [?|Hin]; simplify_eq.
    + by rewrite decide_True.
    + rewrite decide_False; [by apply IH|].
      intros ->. apply Hk0, list_elem_of_fmap. by exists (k0, v).
Qed.

Lemma filter_keys_length {V} (P : str -> Prop) `{!forall x, Decision (P x)}
    (d : list (str * V)) :
  length (filter (fun r => P r.1) d) = length (filter P (Dict.keys d)).
Proof.
  unfold Dict.keys. induction d as [|[k v] d IH]; [done|].
  csimpl. rewrite !filter_cons. cbn [fst].
  destruct (decide (P k)); simpl; by rewrite IH.
Qed.

Lemma filter_split_length {A} (P : A -> Prop) `{!forall x, Decision (P x)}
    (l : list A) :
  length (filter P l) + length (filter (fun x => ~ P x) l) = length l.
Proof.
  rewrite <- length_app. apply Permutation_length, filter_app_complement.
Qed.

(** In a well-shaped symmetric graph the edges of [G.edges()] at a node
    are as many as its neighbours. *)
Lemma incident_edges_neighbours (G : Nx.Graph) (n : str) (nbrs : Dict.t Z) :
  NoDup (Dict.keys G) -> rows_nodup G ->
  (forall a b, Nx.has_edge G a b = Nx.has_edge G b a) ->
  Dict.get G n = Some nbrs ->
  incident_edges n (Nx.edges G) = length nbrs.
Proof.
  intros Hkeys Hrows Hsym Hget.
  destruct (dict_get_split G n nbrs Hget) as (pre & post & HG & Hpre).
  assert (NoDup (Dict.keys pre) /\ n ∉ Dict.keys post) as [Hndpre Hpost].
  { rewrite HG in Hkeys. unfold Dict.keys in *. rewrite fmap_app in Hkeys.
    csimpl in Hkeys.
    apply NoDup_app in Hkeys as (? & _ & [? _]%NoDup_cons). done. }
  assert (rows_nodup pre /\ NoDup (Dict.keys nbrs)) as [Hrpre Hnb].
  { unfold rows_nodup in Hrows. rewrite HG in Hrows.
    apply Forall_app in Hrows as [? [? _]%Forall_cons]. done. }
  unfold Nx.edges. rewrite HG.
  rewrite incident_edges_at by (done || apply not_elem_of_nil).
  rewrite app_nil_r.
  rewrite (filter_ext_elem (fun r => n ∈ Dict.keys r.2)
             (fun r => r.1 ∈ Dict.keys nbrs)).
  2:{ intros [k nbk] Hin. cbn [fst snd].
      assert (Dict.get G k = Some nbk) as Hk.
      { apply dict_elem_get; [done|]. rewrite HG, elem_of_app. by left. }
      rewrite <- !dict_mem_keys.
      assert (Dict.mem nbk n = Nx.has_edge G k n) as ->
        by (unfold Nx.has_edge; by rewrite Hk).
      assert (Dict.mem nbrs k = Nx.has_edge G n k) as ->
        by (unfold Nx.has_edge; by rewrite Hget).
      by rewrite Hsym. }
  pose proof (filter_keys_length (fun k => k ∈ Dict.keys nbrs) pre) as Hlen.
  cbn beta in Hlen. rewrite Hlen. clear Hlen.
  rewrite (Permutation_length
             (l' := filter (fun m => m ∈ Dict.keys pre) (Dict.keys nbrs))).
  2:{ apply NoDup_Permutation; [by apply NoDup_filter..|].
      intros x. rewrite !list_elem_of_filter. tauto. }
  rewrite filter_split_length. unfold Dict.keys. by rewrite length_fmap.
Qed.

Lemma character_network_shape (names : list str)
    (rels : list (str * str * Z)) :
  NoDup (Dict.keys (character_network_with names rels)) /\
  rows_nodup (character_network_with names rels).
Proof.
  unfold character_network_with.
  apply add_relationships_spec, add_nodes_spec.
  split; [apply NoDup_nil_2 | apply Forall_nil_2].
Qed.

Lemma character_network_has_edge (names : list str)
    (rels : list (str * str * Z)) (a b : str) :
  Nx.has_edge (character_network_with names rels) a b = true <->
  exists w, ((a, b, w) ∈ rels \/ (b, a, w) ∈ rels) /\ a ∈ names /\ b ∈ names.
Proof.
  unfold character_network_with.
  destruct (add_relationships_spec names
              (foldl Nx.add_node Nx.empty names) rels) as (-> & _ & _).
  destruct (add_nodes_spec Nx.empty names) as (-> & _ & _).
  split; [by intros [?|?] | by right].
Qed.

Lemma character_network_nodes (names : list str)
    (rels : list (str * str * Z)) (n : str) :
  n ∈ Nx.nodes (character_network_with names rels) <-> n ∈ names.
Proof.
  unfold character_network_with, Nx.nodes.
  destruct (add_nodes_spec Nx.empty names) as (_ & Hk & _).
  destruct (add_relationships_spec names
              (foldl Nx.add_node Nx.empty names) rels) as (_ & -> & _).
  - rewrite Hk. split; [intros [?%elem_of_nil|?]; done | by right].
  - intros m Hm. apply Hk. by right.
Qed.

(** C8: over any roster and any list of authored triples, the nodes of
    the graph are the roster; two names are linked exactly when some triple
    names them, in either order, and both are on the roster, so that the
    edge of a triple (A, B, w) is there if and only if A and B are both on
    the roster; and when no triple links a name to itself the degree of a
    roster node is the number of edges of [G.edges()] that end at it.  The
    edges (A,B,3), (B,C,1) over the roster A, B, C give the degrees 1, 2
    and 1. *)
Theorem character_network_edges_and_degrees :
  (forall (names : list str) (rels : list (str * str * Z)),
     let G := character_network_with names rels in
     (forall n, n ∈ Nx.nodes G <-> n ∈ names) /\
     (forall a b,
        Nx.has_edge G a b = true <->
        exists w, ((a, b, w) ∈ rels \/ (b, a, w) ∈ rels) /\
                  a ∈ names /\ b ∈ names) /\
     (forall a b w, (a, b, w) ∈ rels ->
        (Nx.has_edge G a b = true <-> a ∈ names /\ b ∈ names) /\
        Nx.has_edge G b a = Nx.has_edge G a b) /\
     (forall n, n ∈ names ->
        Nx.degree G n =
          Some (incident_edges n (Nx.edges G) +
                (if Nx.has_edge G n n then 1 else 0))) /\
     ((forall a b w, (a, b, w) ∈ rels -> a <> b) ->
      forall n, n ∈ names ->
        Nx.degree G n = Some (incident_edges n (Nx.edges G)))) /\
  (let G := character_network_with [u "A"; u "B"; u "C"]
              [(u "A", u "B", 3%Z); (u "B", u "C", 1%Z)] in
   Nx.degree G (u "A") = Some 1 /\
   Nx.degree G (u "B") = Some 2 /\
   Nx.degree G (u "C") = Some 1).
Proof.
  split; [|by vm_compute].
  intros names rels G.
  assert (forall a b, Nx.has_edge G a b = Nx.has_edge G b a) as Hsym.
  { intros a b. apply eq_true_iff_eq. subst G.
    rewrite !character_network_has_edge.
    split; intros (w & [?|?] & ? & ?); exists w; tauto. }
  assert (forall n, n ∈ names ->
            Nx.degree G n =
              Some (incident_edges n (Nx.edges G) +
                    (if Nx.has_edge G n n then 1 else 0))) as Hdeg.
  { intros n Hn.
    assert (n ∈ Dict.keys G) as Hnode by (by apply character_network_nodes).
    apply dict_get_Some_keys in Hnode as [nbrs Hget].
    destruct (character_network_shape names rels) as [Hk Hr].
    rewrite (incident_edges_neighbours G n nbrs) by done.
    unfold Nx.degree, Nx.has_edge. by rewrite Hget. }
  split_and!.
  - apply character_network_nodes.
  - apply character_network_has_edge.
  - intros a b w Hin. split; [|done]. subst G.
    rewrite character_network_has_edge. split.
    + by intros (_ & _ & ? & ?).
    + intros [Ha Hb]. exists w. split; [by left | done].
  - apply Hdeg.
  - intros Hloop n Hn. rewrite Hdeg by done.
    assert (Nx.has_edge G n n = false) as ->; [|by rewrite Nat.add_0_r].
    apply not_true_is_false. intros He.
    apply character_network_has_edge in He as (w & [Hin|Hin] & _);
      by apply Hloop in Hin.
Qed.

Lemma character_network_edges_and_degrees_witness :
  Nx.degree create_character_network (u "Chihiro") =
    Some (incident_edges (u "Chihiro") (Nx.edges create_character_network)) /\
  (Nx.has_edge create_character_network (u "Rin") (u "Grandpa Kama") = true <->
   u "Rin" ∈ network_characters /\ u "Grandpa Kama" ∈ network_characters).
Proof.
  destruct (proj1 character_network_edges_and_degrees
              network_characters relationships) as (_ & _ & Hadd & _ & Hdeg).
  split.
  - apply Hdeg.
    + intros a b w Hin. unfold relationships in Hin.
      repeat (apply elem_of_cons in Hin as [Heq|Hin];
              [injection Heq as -> -> _; by vm_compute|]).
      by apply elem_of_nil in Hin.
    + apply (bool_decide_unpack _). by vm_compute.
  - apply (Hadd _ _ 1%Z). apply (bool_decide_unpack _). by vm_compute.
Defined.

(** ** The word-cloud text *)

Lemma sub_from_drop (o c : char) (k : nat) (s : str) :
  Re.sub_from o c k s = Re.sub_from o c 0 (drop k s).
Proof.
  revert k; induction s as [|x t IH]; intros k.
  - by destruct k.
  - destruct k as [|k]; [done|]. simpl. apply IH.
Qed.

Lemma sub_span_cons (o c x : char) (t : str) :
  Re.sub_span o c (x :: t) =
  if (x =? o)%N then
    match Re.match_body c t with
    | Some n => Re.sub_span o c (drop n t)
    | None => x :: Re.sub_span o c t
    end
  else x :: Re.sub_span o c t.
Proof.
  unfold Re.sub_span. simpl. destruct (x =? o)%N; [|done].
  destruct (Re.match_body c t) as [n|]; [apply sub_from_drop | done].
Qed.

(** Characters other than the opening delimiter pass through. *)
Lemma sub_span_app_plain (o c : char) (p s : str) :
  o ∉ p -> Re.sub_span o c (p ++ s) = p ++ Re.sub_span o c s.
Proof.
  induction p as [|x p IH]; intros Hp; [done|].
  apply not_elem_of_cons in Hp as [Hx Hp].
  change ((x :: p) ++ s) with (x :: (p ++ s)). rewrite sub_span_cons.
  destruct (N.eqb_spec x o) as [->|_]; [done|]. simpl. by rewrite IH.
Qed.

(** A match never brings in a character: the result is picked from the
    text. *)
Lemma sub_from_elem (o c : char) (k : nat) (s : str) (x : char) :
  x ∈ Re.sub_from o c k s -> x ∈ s.
Proof.
  revert k; induction s as [|y t IH]; intros k; simpl; [done|].
  destruct k as [|k].
  - destruct (y =? o)%N.
    + destruct (Re.match_body c t) as [n|].
      * intros Hx%IH. apply elem_of_cons. by right.
      * intros [->|Hx%IH]%elem_of_cons; apply elem_of_cons; auto.
    + intros [->|Hx%IH]%elem_of_cons; apply elem_of_cons; auto.
  - intros Hx%IH. apply elem_of_cons. by right.
Qed.

Lemma scan_to_app_plain (c : char) (p s : str) :
  c ∉ p -> Re.scan_to c (p ++ s) = (fun n => length p + n) <$> Re.scan_to c s.
Proof.
  induction p as [|x p IH]; intros Hp; simpl.
  - by destruct (Re.scan_to c s).
  - apply not_elem_of_cons in Hp as [Hx Hp].
    destruct (N.eqb_spec x c) as [->|_]; [done|].
    rewrite IH by done. by destruct (Re.scan_to c s).
Qed.

Section Mapping.
Context (f : char -> str) (o c : char).
Hypothesis f_nonempty : forall x, f x <> [].
Hypothesis f_open : f o = [o].
Hypothesis f_close : f c = [c].
Hypothesis f_no_open : forall x, x <> o -> o ∉ f x.
Hypothesis f_no_close : forall x, x <> c -> c ∉ f x.

Lemma scan_to_bind (t : str) :
  Re.scan_to c (t ≫= f) =
  (fun n => length (take n t ≫= f)) <$> Re.scan_to c t.
Proof.
  induction t as [|x t IH]; [done|].
  rewrite bind_cons. cbn [Re.scan_to].
  destruct (N.eqb_spec x c) as [->|Hx].
  - rewrite f_close. simpl. rewrite N.eqb_refl.
    by rewrite f_close.
  - rewrite scan_to_app_plain by (by apply f_no_close). rewrite IH.
    destruct (Re.scan_to c t) as [n|]; simpl; [|done].
    by rewrite length_app.
Qed.

Lemma match_body_bind (t : str) :
  Re.match_body c (t ≫= f) =
  (fun n => length (take n t ≫= f)) <$> Re.match_body c t.
Proof.
  destruct t as [|x t]; [done|].
  unfold Re.match_body at 2.
  destruct (N.eqb_spec x c) as [->|Hx].
  - rewrite bind_cons, f_close. simpl. by rewrite N.eqb_refl.
  - rewrite <- scan_to_bind. rewrite bind_cons.
    destruct (f x) as [|y p] eqn:Hfx; [by apply f_nonempty in Hfx|].
    simpl. destruct (N.eqb_spec y c) as [->|_]; [|done].
    exfalso. apply (f_no_close x Hx). rewrite Hfx. apply elem_of_cons. by left.
Qed.

(** Removing the spans commutes with a character-wise mapping that keeps
    the delimiters apart. *)
Lemma sub_span_bind (s : str) :
  Re.sub_span o c (s ≫= f) = Re.sub_span o c s ≫= f.
Proof.
  remember (length s) as n eqn:Hn. revert s Hn.
  induction n as [n IH] using lt_wf_ind. intros s Hn.
  destruct s as [|x t]; [done|]. simpl in Hn.
  rewrite (sub_span_cons o c x t).
  destruct (N.eqb_spec x o) as [->|Hx].
  - rewrite bind_cons, f_open.
    change ([o] ++ t ≫= f) with (o :: (t ≫= f)).
    rewrite sub_span_cons, N.eqb_refl, match_body_bind.
    destruct (Re.match_body c t) as [k|]; cbn [fmap option_fmap option_map].
    + rewrite <- (take_drop k t) at 2. rewrite bind_app, drop_app_length.
      apply (IH (length (drop k t))); [rewrite length_drop; lia | done].
    + rewrite bind_cons, f_open. cbn [app]. f_equal.
      apply (IH (length t)); [lia | done].
  - rewrite !bind_cons, sub_span_app_plain by (by apply f_no_open).
    f_equal. apply (IH (length t)); [lia | done].
Qed.

End Mapping.

(** Away from the capital sigma, [lower] maps character by character. *)
Lemma do_lower_bind {U : UnicodeDB} (before s : str) :
  CAPITAL_SIGMA ∉ s -> do_lower before s = s ≫= to_lower_full.
Proof.
  revert before; induction s as [|x t IH]; intros before Hs; [done|].
  apply not_elem_of_cons in Hs as [Hx Hs].
  cbn [do_lower]. rewrite bind_cons, IH by done. f_equal.
  unfold lower_ucs4. destruct (N.eqb_spec x CAPITAL_SIGMA); congruence.
Qed.

Lemma sub_span_lower {U : UnicodeDB} (o c : char) (s : str) :
  lower_keeps_delimiters U -> o ∈ delimiters -> c ∈ delimiters ->
  CAPITAL_SIGMA ∉ s ->
  Re.sub_span o c (lower s) = lower (Re.sub_span o c s) /\
  CAPITAL_SIGMA ∉ Re.sub_span o c s.
Proof.
  intros [Hne Hd] Ho Hc Hs.
  assert (CAPITAL_SIGMA ∉ Re.sub_span o c s) as Hs'
    by (intros Hin; by apply Hs, (sub_from_elem o c 0)).
  split; [|done]. unfold lower. rewrite !do_lower_bind by done.
  destruct (Hd o Ho) as [Hfo Hno]. destruct (Hd c Hc) as [Hfc Hnc].
  by apply sub_span_bind.
Qed.

Lemma ucd_keeps_delimiters : lower_keeps_delimiters ucd.
Proof.
  assert (forall x d, is_latin_upper x = true -> d ∈ delimiters ->
            (x + 32)%N <> d) as Hup.
  { intros x d Hx Hd. unfold is_latin_upper in Hx.
    rewrite orb_true_iff, !andb_true_iff, !N.leb_le in Hx.
    unfold delimiters, Re.LT, Re.GT, Re.STAR, Re.LBRACKET, Re.RBRACKET in Hd.
    repeat (apply elem_of_cons in Hd as [->|Hd]; [lia|]).
    by apply elem_of_nil in Hd. }
  split.
  - intros x. simpl. destruct (is_latin_upper x); [done|].
    by destruct (x =? CAPITAL_SIGMA)%N.
  - intros d Hd. split.
    + unfold delimiters in Hd.
      repeat (apply elem_of_cons in Hd as [->|Hd]; [done|]).
      by apply elem_of_nil in Hd.
    + intros x Hx. simpl. destruct (is_latin_upper x) eqn:Hu.
      * intros ?%list_elem_of_singleton. by apply (Hup x d).
      * destruct (x =? CAPITAL_SIGMA)%N.
        -- intros ->%list_elem_of_singleton.
           unfold delimiters in Hd.
           repeat (apply elem_of_cons in Hd as [Hd|Hd]; [done|]).
           by apply elem_of_nil in Hd.
        -- by intros ?%list_elem_of_singleton.
Qed.

(** C9, as stated, fails: a capital sigma after a letter and before a
    markup span is lower-cased by the implementation as a final sigma, in
    the context of the markup, and as a medial sigma once the span is
    removed first.  The text is A, U+03A3, <b>, C. *)
Lemma wordcloud_text_final_sigma :
  let text := [65; 931]%N ++ u "<b>C" in
  let self := (load_script (fun _ => Some text) (init SCRIPT_NAME)).2 in
  wordcloud_text (U:=ucd) self = [97; 962; 99]%N /\
  spec_normalize (U:=ucd) (script_text self) = [97; 963; 99]%N /\
  wordcloud_text (U:=ucd) self <> spec_normalize (U:=ucd) (script_text self).
Proof. by vm_compute. Qed.

(** C9, amended: the word-cloud text is the lower-cased raw text with the
    angle-bracket, asterisk and square-bracket spans then removed; for every
    raw text without a Greek capital sigma (U+03A3) this is the text
    obtained by removing the three kinds of span first and lower-casing the
    remainder. *)
Theorem wordcloud_text_normalizes (U : UnicodeDB)
    (self : SpiritedAwayAnalyzer) :
  lower_keeps_delimiters U ->
  CAPITAL_SIGMA ∉ script_text self ->
  wordcloud_text self =
    Re.sub_square (Re.sub_star (Re.sub_angle (lower (script_text self)))) /\
  wordcloud_text self = spec_normalize (script_text self).
Proof.
  intros HU Hs. split; [done|].
  unfold wordcloud_text, spec_normalize, Re.sub_angle, Re.sub_star,
    Re.sub_square.
  assert (Forall (fun d => d ∈ delimiters) delimiters) as Hd
    by (by apply Forall_forall).
  unfold delimiters at 2 in Hd.
  apply Forall_cons in Hd as [Hlt Hd]. apply Forall_cons in Hd as [Hgt Hd].
  apply Forall_cons in Hd as [Hstar Hd]. apply Forall_cons in Hd as [Hlb Hd].
  apply Forall_cons in Hd as [Hrb _].
  destruct (sub_span_lower Re.LT Re.GT (script_text self) HU Hlt Hgt Hs)
    as [-> Hs1].
  destruct (sub_span_lower Re.STAR Re.STAR _ HU Hstar Hstar Hs1) as [-> Hs2].
  by destruct (sub_span_lower Re.LBRACKET Re.RBRACKET _ HU Hlb Hrb Hs2)
    as [-> _].
Qed.

Lemma wordcloud_text_normalizes_witness :
  let self :=
    (load_script (fun _ => Some (u "Hello <b>World</b> *sighs* [x] END"))
                 (init SCRIPT_NAME)).2 in
  wordcloud_text (U:=ucd) self = spec_normalize (U:=ucd) (script_text self).
Proof.
  intros self. apply (wordcloud_text_normalizes ucd self).
  - exact ucd_keeps_delimiters.
  - apply (bool_decide_unpack _). by vm_compute.
Defined.

(** * Further properties of the analyzer *)

(** ** Loading the script *)

Lemma split_nonempty (sep : char) (s : str) : Py.split sep s <> [].
Proof.
  induction s as [|c t IH]; simpl; [done|].
  destruct (c =? sep)%N; [done|]. by destruct (Py.split sep t).
Qed.

Lemma join_cons_cons (sep p q : str) (rest : list str) :
  Py.join sep (p :: q :: rest) = p ++ sep ++ Py.join sep (q :: rest).
Proof. done. Qed.

Lemma join_split (sep : char) (s : str) :
  Py.join [sep] (Py.split sep s) = s.
Proof.
  induction s as [|c t IH]; [done|]. cbn [Py.split].
  pose proof (split_nonempty sep t) as Hne.
  destruct (N.eqb_spec c sep) as [->|Hc];
    destruct (Py.split sep t) as [|p ps]; try done.
  - rewrite join_cons_cons. cbn [app]. by rewrite IH.
  - destruct ps as [|q ps].
    + simpl in *. by rewrite IH.
    + rewrite join_cons_cons. rewrite join_cons_cons in IH. by rewrite <- IH.
Qed.

Lemma join_elem (sep : str) (parts : list str) (p : str) :
  p ∈ parts -> exists before after, Py.join sep parts = before ++ p ++ after.
Proof.
  induction parts as [|q parts IH]; intros Hp; [by apply elem_of_nil in Hp|].
  destruct parts as [|q' parts].
  - apply list_elem_of_singleton in Hp as ->. exists [], []. simpl.
    by rewrite app_nil_r.
  - rewrite join_cons_cons. apply elem_of_cons in Hp as [->|Hp].
    + by exists [], (sep ++ Py.join sep (q' :: parts)).
    + destruct (IH Hp) as (b & a & ->). exists (q ++ sep ++ b), a.
      by rewrite <- !app_assoc.
Qed.

Lemma split_no_separator (sep : char) (s : str) :
  Forall (fun l => sep ∉ l) (Py.split sep s).
Proof.
  induction s as [|c t IH]; simpl.
  - repeat constructor. apply not_elem_of_nil.
  - destruct (N.eqb_spec c sep) as [->|Hc].
    + constructor; [apply not_elem_of_nil | done].
    + destruct (Py.split sep t) as [|p ps].
      * repeat constructor. by intros ?%list_elem_of_singleton.
      * apply Forall_cons in IH as [Hp Hps]. constructor; [|done].
        by intros [?|?]%elem_of_cons.
Qed.

Lemma split_length (sep : char) (s : str) :
  length (Py.split sep s) = S (length (filter (fun c => c = sep) s)).
Proof.
  induction s as [|c t IH]; [done|]. cbn [Py.split]. rewrite filter_cons.
  pose proof (split_nonempty sep t) as Hne.
  destruct (N.eqb_spec c sep) as [->|Hc].
  - rewrite decide_True by done. simpl. by rewrite IH.
  - rewrite decide_False by done.
    destruct (Py.split sep t) as [|p ps]; [done|]. simpl in *. done.
Qed.

Lemma split_join (sep : char) (ls : list str) :
  ls <> [] -> Forall (fun l => sep ∉ l) ls ->
  Py.split sep (Py.join [sep] ls) = ls.
Proof.
  intros Hne Hls. induction Hls as [|l ls Hl Hls IH]; [done|]. clear Hne.
  assert (forall rest, Py.split sep (l ++ rest) =
            match Py.split sep rest with
            | p :: ps => (l ++ p) :: ps
            | [] => [l]
            end) as Happ.
  { intros rest. pose proof (split_nonempty sep rest) as Hrest.
    induction l as [|c l IHl]; simpl.
    - by destruct (Py.split sep rest).
    - apply not_elem_of_cons in Hl as [Hc Hl].
      destruct (N.eqb_spec c sep) as [|_]; [done|].
      rewrite IHl by done. by destruct (Py.split sep rest). }
  destruct ls as [|q ls].
  - simpl. rewrite <- (app_nil_r l) at 1. rewrite Happ. simpl.
    by rewrite app_nil_r.
  - rewrite join_cons_cons, Happ. cbn [app Py.split].
    rewrite N.eqb_refl, app_nil_r, IH by done. done.
Qed.

(** X1: a script that can be read is kept whole: [load_script] returns
    [True], stores the text, and splits it at the line feeds into at least
    one line, none of which holds a line feed, one more than there are line
    feeds, and joining the lines with line feeds gives the text back. *)
Theorem load_script_lines (read_file : list N -> option (list N))
    (self : SpiritedAwayAnalyzer) (text : list N) :
  read_file (script_file self) = Some text ->
  let r := load_script read_file self in
  r.1 = true /\
  script_text r.2 = text /\
  Py.join [LF] (lines r.2) = text /\
  Forall (fun l => LF ∉ l) (lines r.2) /\
  length (lines r.2) = S (length (filter (fun c => c = LF) text)) /\
  characters r.2 = characters self.
Proof.
  intros Hread r. subst r. unfold load_script. rewrite Hread. cbn [fst snd].
  cbn [script_text lines characters].
  split_and!; [done | done | apply join_split | apply split_no_separator
              | apply split_length | done].
Qed.

Lemma load_script_lines_witness :
  let r := load_script (fun _ => Some (u "Haku" ++ [LF] ++ u "Rin" ++ [LF]))
                       (init SCRIPT_NAME) in
  r.1 = true /\
  script_text r.2 = u "Haku" ++ [LF] ++ u "Rin" ++ [LF] /\
  Py.join [LF] (lines r.2) = u "Haku" ++ [LF] ++ u "Rin" ++ [LF] /\
  Forall (fun l => LF ∉ l) (lines r.2) /\
  length (lines r.2) =
    S (length (filter (fun c => c = LF) (u "Haku" ++ [LF] ++ u "Rin" ++ [LF]))) /\
  characters r.2 = characters (init SCRIPT_NAME).
Proof.
  apply (load_script_lines (fun _ => Some (u "Haku" ++ [LF] ++ u "Rin" ++ [LF]))
           (init SCRIPT_NAME)).
  reflexivity.
Defined.

Lemma universal_newlines_no_cr (s : str) : CR ∉ universal_newlines s.
Proof.
  cut ((CR ∉ universal_newlines s) /\
       (forall c, CR ∉ universal_newlines (c :: s))); [by intros [? _]|].
  induction s as [|a s [IH1 IH2]].
  - split; [apply not_elem_of_nil|]. intros c. cbn [universal_newlines].
    destruct (N.eqb_spec c CR) as [->|Hc];
      by intros [?|?%elem_of_nil]%elem_of_cons.
  - split; [apply IH2|]. intros c. cbn [universal_newlines].
    destruct (N.eqb_spec c CR) as [->|Hc].
    + apply not_elem_of_cons. split; [done|].
      destruct (a =? LF)%N; [exact IH1 | apply IH2].
    + apply not_elem_of_cons. split; [done | apply IH2].
Qed.

Lemma universal_newlines_id (s : str) :
  CR ∉ s -> universal_newlines s = s.
Proof.
  induction s as [|c t IH]; [done|]. intros [Hc Ht]%not_elem_of_cons.
  cbn [universal_newlines].
  destruct (N.eqb_spec c CR) as [|_]; [done|]. by rewrite IH.
Qed.

Lemma join_not_elem (c : char) (sep : str) (parts : list str) :
  c ∉ sep -> Forall (fun p => c ∉ p) parts -> c ∉ Py.join sep parts.
Proof.
  intros Hsep Hparts. induction Hparts as [|p parts Hp Hparts IH]; simpl.
  - apply not_elem_of_nil.
  - destruct parts as [|q parts]; [done|].
    rewrite !not_elem_of_app. by split_and!.
Qed.

Lemma split_pieces (sep c : char) (s l : str) :
  l ∈ Py.split sep s -> c ∈ l -> c ∈ s.
Proof.
  intros Hl Hc. destruct (join_elem [sep] _ _ Hl) as (before & after & Hj).
  rewrite join_split in Hj. rewrite Hj, !elem_of_app. auto.
Qed.

(** X2: the lines [load_script] keeps hold neither a line feed nor a
    carriage return, whatever the file holds, because text mode turns every
    CR LF and every CR into a line feed before the text is split; and a
    file whose decoded content is a non-empty list of lines without line
    feed and without carriage return, joined with line feeds, is loaded as
    exactly those lines. *)
Theorem load_script_joined_lines (disk : list N -> option (list N))
    (self : SpiritedAwayAnalyzer) (content : list N) :
  disk (script_file self) = Some content ->
  let loaded_lines := lines (load_script (open_text disk) self).2 in
  loaded_lines = Py.split LF (universal_newlines content) /\
  Forall (fun l => (LF ∉ l) /\ (CR ∉ l)) loaded_lines /\
  (forall ls : list (list N),
     ls <> [] -> Forall (fun l => (LF ∉ l) /\ (CR ∉ l)) ls ->
     content = Py.join [LF] ls -> loaded_lines = ls).
Proof.
  intros Hdisk loaded_lines. subst loaded_lines.
  unfold load_script, open_text. rewrite Hdisk. cbn [fmap option_fmap option_map].
  cbn [snd lines]. split_and!.
  - done.
  - apply Forall_forall. intros l Hl. split.
    + pose proof (split_no_separator LF (universal_newlines content)) as Hno.
      rewrite Forall_forall in Hno. by apply Hno.
    + intros Hc. apply (universal_newlines_no_cr content).
      by apply (split_pieces LF CR _ l).
  - intros ls Hne Hls ->.
    rewrite universal_newlines_id.
    + apply split_join; [done|]. eapply Forall_impl; [exact Hls|].
      by intros l [? _].
    + apply join_not_elem; [by intros ?%list_elem_of_singleton|].
      eapply Forall_impl; [exact Hls|]. by intros l [_ ?].
Qed.

Lemma load_script_joined_lines_witness :
  lines (load_script
           (open_text (fun _ => Some (Py.join [LF] [u "Haku"; u ""; u "Rin"])))
           (init SCRIPT_NAME)).2 = [u "Haku"; u ""; u "Rin"].
Proof.
  apply (proj2 (proj2 (load_script_joined_lines
           (fun _ => Some (Py.join [LF] [u "Haku"; u ""; u "Rin"]))
           (init SCRIPT_NAME) (Py.join [LF] [u "Haku"; u ""; u "Rin"])
           eq_refl))).
  - done.
  - apply (bool_decide_unpack _). by vm_compute.
  - reflexivity.
Defined.

(** A carriage return inside a line splits it: two lines written with a
    carriage return at the end of the first and inside the second are
    loaded as three lines. *)
Lemma load_script_carriage_return :
  lines (load_script
           (open_text (fun _ => Some (Py.join [LF]
                                        [u "Haku" ++ [CR];
                                         u "Rin" ++ [CR] ++ u "Dad"])))
           (init SCRIPT_NAME)).2 = [u "Haku"; u "Rin"; u "Dad"].
Proof. reflexivity. Qed.

(** ** More on the mention extractor *)

Lemma lstrip_spec (s : str) :
  exists ws, s = ws ++ Py.lstrip s /\
             Forall (fun c => Py.isspace c = true) ws /\
             forall c, head (Py.lstrip s) = Some c -> Py.isspace c = false.
Proof.
  induction s as [|c t (ws & Ht & Hws & Hhead)]; simpl.
  - exists []. by repeat split.
  - destruct (Py.isspace c) eqn:Hc.
    + exists (c :: ws). split_and!; [simpl; by f_equal | by constructor | done].
    + exists []. split_and!; [done | done |]. simpl. by intros ? [= <-].
Qed.

Lemma lstrip_id (s : str) :
  (forall c, head s = Some c -> Py.isspace c = false) -> Py.lstrip s = s.
Proof.
  destruct s as [|c t]; [done|]. intros Hc. simpl. by rewrite Hc.
Qed.

Lemma rstrip_spec (s : str) :
  exists ws, s = Py.rstrip s ++ ws /\
             Forall (fun c => Py.isspace c = true) ws /\
             forall c, last (Py.rstrip s) = Some c -> Py.isspace c = false.
Proof.
  unfold Py.rstrip.
  destruct (lstrip_spec (reverse s)) as (ws & Hs & Hws & Hhead).
  exists (reverse ws). split_and!.
  - rewrite <- reverse_app, <- Hs. by rewrite reverse_involutive.
  - by apply Forall_reverse.
  - intros c. rewrite last_reverse. apply Hhead.
Qed.

Lemma rstrip_id (s : str) :
  (forall c, last s = Some c -> Py.isspace c = false) -> Py.rstrip s = s.
Proof.
  intros Hc. unfold Py.rstrip. rewrite lstrip_id.
  - apply reverse_involutive.
  - intros c. rewrite head_reverse. apply Hc.
Qed.

(** What [strip] leaves has no white space at either end. *)
Lemma strip_ends (s : str) (c : char) :
  (head (Py.strip s) = Some c -> Py.isspace c = false) /\
  (last (Py.strip s) = Some c -> Py.isspace c = false).
Proof.
  unfold Py.strip.
  destruct (lstrip_spec s) as (_ & _ & _ & Hhead).
  destruct (rstrip_spec (Py.lstrip s)) as (ws & Hs & _ & Hlast).
  split; [|apply Hlast].
  intros Hc. apply Hhead. rewrite Hs.
  destruct (Py.rstrip (Py.lstrip s)); [done|]. exact Hc.
Qed.

Lemma strip_idempotent (s : str) : Py.strip (Py.strip s) = Py.strip s.
Proof.
  unfold Py.strip at 1.
  rewrite (lstrip_id (Py.strip s)) by (intros c; apply strip_ends).
  apply rstrip_id. intros c. apply strip_ends.
Qed.

Lemma from_keys_keys {V} (ks : list (list N)) (v : V) :
  NoDup ks -> Dict.keys (Dict.from_keys ks v) = ks.
Proof.
  unfold Dict.from_keys.
  assert (forall acc : list (list N * V),
            NoDup (Dict.keys acc ++ ks) ->
            Dict.keys (foldl (fun d k => Dict.set d k v) acc ks) =
            Dict.keys acc ++ ks) as Hacc.
  { induction ks as [|k ks IH]; intros acc Hnd; simpl.
    - by rewrite app_nil_r.
    - assert (Dict.mem acc k = false) as Hk.
      { apply not_true_is_false. intros Hin%dict_mem_keys.
        apply NoDup_app in Hnd as (_ & Hnd & _).
        apply (Hnd k Hin). apply elem_of_cons. by left. }
      rewrite IH; rewrite dict_keys_set, Hk, <- ?app_assoc; done. }
  intros Hnd. by rewrite (Hacc []).
Qed.

Lemma dict_as_table {V} (f : list N -> V) (d : list (list N * V)) :
  NoDup (Dict.keys d) ->
  (forall k, k ∈ Dict.keys d -> Dict.get d k = Some (f k)) ->
  d = (fun k => (k, f k)) <$> Dict.keys d.
Proof.
  unfold Dict.keys. induction d as [|[k v] d IH]; csimpl; intros Hnd Hget.
  - done.
  - apply NoDup_cons in Hnd as [Hk Hnd].
    assert (v = f k) as ->.
    { specialize (Hget k). rewrite decide_True in Hget by done.
      assert (Some v = Some (f k)) as Hv
        by (apply Hget, elem_of_cons; by left).
      by injection Hv. }
    f_equal. apply IH; [done|]. intros k' Hk'.
    specialize (Hget k'). rewrite decide_False in Hget.
    + apply Hget, elem_of_cons. by right.
    + by intros ->.
Qed.

Lemma extract_characters_tables {U : UnicodeDB} (names : list (list N))
    (self : SpiritedAwayAnalyzer) :
  NoDup names ->
  (extract_characters_with names self).1.1 =
    (fun char => (char, matched char (lines self))) <$> names /\
  (extract_characters_with names self).1.2 =
    (fun char => (char, length (matched char (lines self)))) <$> names.
Proof.
  intros Hnd.
  assert (Dict.keys (extract_characters_with names self).1.1 = names /\
          Dict.keys (extract_characters_with names self).1.2 = names)
    as [Hk1 Hk2].
  { unfold extract_characters_with. cbn [fst snd].
    destruct (scan_lines_keys names (lines self)
                (Dict.from_keys names [], Dict.from_keys names 0)) as [-> ->].
    cbn [fst snd]. by rewrite !from_keys_keys. }
  split.
  - rewrite <- Hk1 at 2. apply dict_as_table; rewrite Hk1; [done|].
    intros k Hk. by apply extract_characters_get.
  - rewrite <- Hk2 at 2. apply dict_as_table; rewrite Hk2; [done|].
    intros k Hk. by apply extract_characters_get.
Qed.

(** X3: over a roster without repeated names [extract_characters]
    returns two dicts with one entry for each roster character, in roster
    order, the characters nobody mentions included: the lines dict pairs each
    character with its matching lines and the count dict with their number;
    a count never exceeds the number of script lines; and the method leaves
    the script alone and stores the count dict in [self.characters]. *)
Theorem extract_characters_entries (U : UnicodeDB) (names : list (list N))
    (self : SpiritedAwayAnalyzer) :
  NoDup names ->
  let r := extract_characters_with names self in
  r.1.1 = (fun char => (char, matched char (lines self))) <$> names /\
  r.1.2 = (fun char => (char, length (matched char (lines self)))) <$> names /\
  Dict.keys r.1.1 = names /\
  Dict.keys r.1.2 = names /\
  (forall char, char ∈ names ->
     exists n, Dict.get r.1.2 char = Some n /\ n <= length (lines self)) /\
  characters r.2 = r.1.2 /\
  lines r.2 = lines self /\
  script_text r.2 = script_text self.
Proof.
  intros Hnd r. subst r.
  destruct (extract_characters_tables names self Hnd) as [Ht1 Ht2].
  split_and!; try done.
  - unfold extract_characters_with. cbn [fst].
    destruct (scan_lines_keys names (lines self)
                (Dict.from_keys names [], Dict.from_keys names 0)) as [-> _].
    by apply from_keys_keys.
  - unfold extract_characters_with. cbn [fst snd].
    destruct (scan_lines_keys names (lines self)
                (Dict.from_keys names [], Dict.from_keys names 0)) as [_ ->].
    by apply from_keys_keys.
  - intros char Hin.
    destruct (extract_characters_get names self char Hnd Hin) as [_ Hc].
    eexists. split; [exact Hc|]. unfold matched.
    etrans; [apply length_filter|]. by rewrite length_fmap.
Qed.

Lemma extract_characters_entries_witness :
  let r := extract_characters (U:=ucd) (loaded [u "Haku"; u "Rin and Haku"]) in
  r.1.1 = (fun char => (char, matched (U:=ucd) char [u "Haku"; u "Rin and Haku"]))
            <$> main_characters /\
  r.1.2 = (fun char => (char, length (matched (U:=ucd) char
                                        [u "Haku"; u "Rin and Haku"])))
            <$> main_characters /\
  Dict.keys r.1.1 = main_characters /\
  Dict.keys r.1.2 = main_characters /\
  (forall char, char ∈ main_characters ->
     exists n, Dict.get r.1.2 char = Some n /\ n <= 2) /\
  characters r.2 = r.1.2 /\
  lines r.2 = [u "Haku"; u "Rin and Haku"] /\
  script_text r.2 = script_text (loaded [u "Haku"; u "Rin and Haku"]).
Proof.
  apply (extract_characters_entries ucd main_characters
           (loaded [u "Haku"; u "Rin and Haku"])).
  apply (bool_decide_unpack _). by vm_compute.
Defined.

(** X4: every line recorded for a roster character is a stripped script
    line: it is not empty, it has no white space at either end, it does not
    start with [<] or [*], and stripping it again changes nothing. *)
Theorem recorded_lines_trimmed (U : UnicodeDB) (names : list (list N))
    (self : SpiritedAwayAnalyzer) (char : list N) (recorded : list (list N))
    (l : list N) :
  NoDup names -> char ∈ names ->
  Dict.get (extract_characters_with names self).1.1 char = Some recorded ->
  l ∈ recorded ->
  l <> [] /\
  (forall c, head l = Some c ->
     Py.isspace c = false /\ c <> Re.LT /\ c <> Re.STAR) /\
  (forall c, last l = Some c -> Py.isspace c = false) /\
  Py.strip l = l.
Proof.
  intros Hnd Hin Hget Hl.
  destruct (extract_characters_get names self char Hnd Hin) as [Hrec _].
  rewrite Hrec in Hget. injection Hget as <-.
  apply matched_spec in Hl as ((raw & _ & ->) & (Hne & Hlt & Hstar) & _).
  split_and!; [done | | |apply strip_idempotent].
  - intros c Hc. destruct (strip_ends raw c) as [Hh _].
    split_and!; [by apply Hh | |]; intros ->; congruence.
  - intros c. by destruct (strip_ends raw c) as [_ Hlast].
Qed.

Lemma recorded_lines_trimmed_witness :
  u "Haku walks in." <> [] /\
  (forall c, head (u "Haku walks in.") = Some c ->
     Py.isspace c = false /\ c <> Re.LT /\ c <> Re.STAR) /\
  (forall c, last (u "Haku walks in.") = Some c -> Py.isspace c = false) /\
  Py.strip (u "Haku walks in.") = u "Haku walks in.".
Proof.
  apply (recorded_lines_trimmed ucd main_characters
           (loaded [u "  Haku walks in.  "]) (u "Haku")
           [u "Haku walks in."]).
  - apply (bool_decide_unpack _). by vm_compute.
  - apply (bool_decide_unpack _). by vm_compute.
  - by vm_compute.
  - apply (bool_decide_unpack _). by vm_compute.
Defined.

Lemma contains_trans (hay mid needle : str) :
  Py.contains hay mid = true -> Py.contains mid needle = true ->
  Py.contains hay needle = true.
Proof.
  rewrite !contains_spec.
  intros (b1 & a1 & ->) (b2 & a2 & ->).
  exists (b1 ++ b2), (a2 ++ a1). by rewrite <- !app_assoc.
Qed.

Lemma filter_length_mono {A} (P Q : A -> Prop)
    `{!forall x, Decision (P x)} `{!forall x, Decision (Q x)} (l : list A) :
  (forall x, P x -> Q x) -> length (filter P l) <= length (filter Q l).
Proof.
  intros HPQ. induction l as [|x l IH]; [done|].
  rewrite !filter_cons. destruct (decide (P x)) as [HP|HP].
  - rewrite decide_True by auto. simpl. lia.
  - destruct (decide (Q x)); simpl; lia.
Qed.

(** X5: names are matched as plain substrings, so a roster name whose
    lower-cased form lies inside the lower-cased form of another roster name
    is counted on every line that counts for the longer one: its count is at
    least as large. *)
Theorem extract_characters_substring_names (U : UnicodeDB)
    (names : list (list N)) (self : SpiritedAwayAnalyzer)
    (short long : list N) (n m : nat) :
  NoDup names -> short ∈ names -> long ∈ names ->
  Py.contains (lower long) (lower short) = true ->
  Dict.get (extract_characters_with names self).1.2 short = Some n ->
  Dict.get (extract_characters_with names self).1.2 long = Some m ->
  m <= n.
Proof.
  intros Hnd Hs Hl Hsub Hn Hm.
  destruct (extract_characters_get names self short Hnd Hs) as [_ Hcs].
  destruct (extract_characters_get names self long Hnd Hl) as [_ Hcl].
  rewrite Hcs in Hn. rewrite Hcl in Hm. simplify_eq.
  unfold matched. apply filter_length_mono. intros x.
  rewrite !andb_True. intros [Hx Hc]. split; [done|].
  apply Is_true_true. apply Is_true_true in Hc.
  unfold mentions in *. by apply (contains_trans _ (lower long)).
Qed.

Lemma extract_characters_substring_names_witness : 1 <= 2.
Proof.
  apply (extract_characters_substring_names ucd [u "Rin"; u "Rinko"]
           (loaded [u "Rinko waves."; u "Rin waves back."])
           (u "Rin") (u "Rinko") 2 1).
  - apply (bool_decide_unpack _). by vm_compute.
  - apply (bool_decide_unpack _). by vm_compute.
  - apply (bool_decide_unpack _). by vm_compute.
  - by vm_compute.
  - by vm_compute.
  - by vm_compute.
Defined.

(** ** The filtered counts and the report *)

Lemma dict_set_fresh {V} (d : list (list N * V)) k v :
  Dict.mem d k = false -> Dict.set d k v = d ++ [(k, v)].
Proof.
  unfold Dict.mem. induction d as [|[k0 v0] d IH]; simpl; [done|].
  case_decide; [done|]. intros Hd. by rewrite IH.
Qed.

Lemma filter_values_filter {V} (p : V -> bool) (d : list (list N * V)) :
  NoDup (Dict.keys d) ->
  Dict.filter_values p d = filter (fun kv => p kv.2) d.
Proof.
  unfold Dict.filter_values.
  assert (forall acc : list (list N * V),
            NoDup (Dict.keys acc ++ Dict.keys d) ->
            foldl (fun acc kv => if p kv.2 then Dict.set acc kv.1 kv.2 else acc)
                  acc d = acc ++ filter (fun kv => p kv.2) d) as Hacc.
  { induction d as [|[k v] d IH]; intros acc Hnd; simpl.
    - by rewrite app_nil_r.
    - unfold Dict.keys in Hnd. csimpl in Hnd. rewrite filter_cons. cbn [snd fst].
      destruct (p v) eqn:Hp.
      + assert (Dict.mem acc k = false) as Hk.
        { apply not_true_is_false. intros Hin%dict_mem_keys.
          apply NoDup_app in Hnd as (_ & Hnd & _).
          apply (Hnd k Hin). apply elem_of_cons. by left. }
        rewrite dict_set_fresh by done. rewrite IH.
        * rewrite decide_True by done. by rewrite <- app_assoc.
        * unfold Dict.keys. rewrite fmap_app, <- app_assoc. exact Hnd.
      + rewrite decide_False by (by intros []). apply IH.
        apply NoDup_app in Hnd as (Ha & Hd & [_ Hnd]%NoDup_cons).
        apply NoDup_app. split_and!; [done | | done].
        intros x Hx Hx'. apply (Hd x Hx). apply elem_of_cons. by right. }
  intros Hnd. by rewrite (Hacc []).
Qed.

Lemma dict_get_iff_elem {V} (d : list (list N * V)) k v :
  NoDup (Dict.keys d) -> Dict.get d k = Some v <-> (k, v) ∈ d.
Proof.
  intros Hnd. split; [apply dict_get_elem | by apply dict_elem_get].
Qed.

Lemma keys_filter_sublist {V} (P : list N * V -> Prop)
    `{!forall x, Decision (P x)} (d : list (list N * V)) :
  Dict.keys (filter P d) `sublist_of` Dict.keys d.
Proof. unfold Dict.keys. apply fmap_sublist, sublist_filter. Qed.

Section Filtered.
Context {U : UnicodeDB}.

(** The dict [filtered_chars] of [analyze_characters] and of the report. *)
Lemma filtered_chars_spec (names : list (list N))
    (self : SpiritedAwayAnalyzer) :
  NoDup names ->
  let counts := (extract_characters_with names self).1.2 in
  let filtered := Dict.filter_values (fun v => 0 <? v) counts in
  filtered = filter (fun kv => 0 <? kv.2) counts /\
  NoDup (Dict.keys filtered) /\
  Dict.keys filtered `sublist_of` names /\
  (forall char n,
     Dict.get filtered char = Some n <->
     char ∈ names /\ n = length (matched char (lines self)) /\ 0 < n).
Proof.
  intros Hnd counts filtered.
  assert (Dict.keys counts = names) as Hkeys.
  { subst counts. unfold extract_characters_with. cbn [fst snd].
    destruct (scan_lines_keys names (lines self)
                (Dict.from_keys names [], Dict.from_keys names 0)) as [_ ->].
    by apply from_keys_keys. }
  assert (NoDup (Dict.keys counts)) as Hndc by (by rewrite Hkeys).
  assert (filtered = filter (fun kv => 0 <? kv.2) counts) as Hf
    by (by apply filter_values_filter).
  assert (Dict.keys filtered `sublist_of` names) as Hsub
    by (rewrite Hf, <- Hkeys; apply keys_filter_sublist).
  assert (NoDup (Dict.keys filtered)) as Hndf
    by (by apply (sublist_NoDup _ names)).
  split_and!; [done..|].
  intros char n. rewrite dict_get_iff_elem by done.
  rewrite Hf, list_elem_of_filter, <- dict_get_iff_elem by done. cbn [snd].
  rewrite Is_true_true, Nat.ltb_lt. split.
  - intros [Hpos Hget].
    assert (char ∈ names) as Hin.
    { rewrite <- Hkeys. apply dict_get_Some_keys. by eexists. }
    destruct (extract_characters_get names self char Hnd Hin) as [_ Hc].
    subst counts. rewrite Hc in Hget. by simplify_eq.
  - intros (Hin & -> & Hpos).
    destruct (extract_characters_get names self char Hnd Hin) as [_ Hc].
    done.
Qed.

End Filtered.

(** X6: over a roster without repeated names [analyze_characters] hands
    to the bar chart exactly the roster characters with at least one
    mention, each with its count, in roster order; the analyzer it leaves
    behind holds the full count dict. *)
Theorem analyze_characters_filtered (U : UnicodeDB) (names : list (list N))
    (self : SpiritedAwayAnalyzer) :
  NoDup names ->
  let r := analyze_characters_with names self in
  Dict.keys r.1 `sublist_of` names /\
  (forall char n,
     Dict.get r.1 char = Some n <->
     char ∈ names /\ n = length (matched char (lines self)) /\ 0 < n) /\
  r.1 = filter (fun kv => 0 <? kv.2) (characters r.2) /\
  characters r.2 = (extract_characters_with names self).1.2.
Proof.
  intros Hnd r.
  destruct (filtered_chars_spec names self Hnd) as (Hf & _ & Hsub & Hget).
  subst r. unfold analyze_characters_with.
  destruct (extract_characters_with names self) as [[cl cc] self'] eqn:He.
  cbn [fst snd] in *.
  assert (characters self' = cc) as ->.
  { unfold extract_characters_with in He. injection He as Hst <-.
    cbn [characters]. by rewrite Hst. }
  done.
Qed.

Lemma analyze_characters_filtered_witness :
  let r := analyze_characters (U:=ucd) (loaded [u "Haku"; u "Rin and Haku"]) in
  Dict.keys r.1 `sublist_of` main_characters /\
  (forall char n,
     Dict.get r.1 char = Some n <->
     char ∈ main_characters /\
     n = length (matched (U:=ucd) char [u "Haku"; u "Rin and Haku"]) /\ 0 < n) /\
  r.1 = filter (fun kv => 0 <? kv.2) (characters r.2) /\
  characters r.2 =
    (extract_characters (U:=ucd) (loaded [u "Haku"; u "Rin and Haku"])).1.2.
Proof.
  apply (analyze_characters_filtered ucd main_characters
           (loaded [u "Haku"; u "Rin and Haku"])).
  apply (bool_decide_unpack _). by vm_compute.
Defined.

(** X7: over a roster without repeated names the report runs to its end
    and returns [True] exactly when some roster character is mentioned on
    some line; when none is, it raises [ValueError]. *)
Theorem generate_summary_report_completes (U : UnicodeDB)
    (names : list (list N)) (self : SpiritedAwayAnalyzer) :
  NoDup names ->
  ((generate_summary_report_with names self).1.2 = Ok true <->
   exists char, char ∈ names /\ matched char (lines self) <> []) /\
  ((generate_summary_report_with names self).1.2 = Raise ValueError <->
   forall char, char ∈ names -> matched char (lines self) = []).
Proof.
  intros Hnd.
  destruct (filtered_chars_spec names self Hnd) as (_ & _ & _ & Hget).
  rewrite generate_summary_report_outcome.
  set (filtered := Dict.filter_values _ _) in *.
  assert (filtered = [] <->
          forall char, char ∈ names -> matched char (lines self) = []) as Hempty.
  { split.
    - intros Hnil char Hin.
      destruct (matched char (lines self)) as [|l ls] eqn:Hm; [done|].
      assert (Dict.get filtered char = Some (length (l :: ls))) as Hsome
        by (apply Hget; rewrite Hm; simpl; split_and!; [done | done | lia]).
      by rewrite Hnil in Hsome.
    - intros Hall. destruct filtered as [|[k v] rest]; [done|]. exfalso.
      destruct (Hget k v) as [Hk _].
      destruct Hk as (Hin & -> & Hpos); [simpl; by rewrite decide_True|].
      rewrite (Hall k Hin) in Hpos. simpl in Hpos. lia. }
  destruct (decide (filtered = [])) as [Hnil|Hnn].
  - split.
    + split; [done|].
      intros (char & Hin & Hm). exfalso. apply Hm. by apply Hempty.
    + split; [intros _; by apply Hempty | done].
  - split; [split; [|done] | split; [done|]].
    + intros _. destruct (decide (Exists (fun char =>
                 matched char (lines self) <> []) names)) as [Hex|Hno].
      * apply Exists_exists in Hex as (char & Hin & Hm). by exists char.
      * exfalso. apply Hnn, Hempty. intros char Hin.
        destruct (decide (matched char (lines self) = [])) as [|Hm]; [done|].
        exfalso. apply Hno, Exists_exists. by exists char.
    + intros Hall. by apply Hempty in Hall.
Qed.

Lemma generate_summary_report_completes_witness :
  ((generate_summary_report (U:=ucd) (loaded [u "Rin waves."])).1.2 = Ok true <->
   exists char, char ∈ main_characters /\
                matched (U:=ucd) char [u "Rin waves."] <> []) /\
  ((generate_summary_report (U:=ucd) (loaded [u "Rin waves."])).1.2 =
     Raise ValueError <->
   forall char, char ∈ main_characters ->
                matched (U:=ucd) char [u "Rin waves."] = []).
Proof.
  apply (generate_summary_report_completes ucd main_characters
           (loaded [u "Rin waves."])).
  apply (bool_decide_unpack _). by vm_compute.
Defined.

(** *** The ranking and the most active character *)

(** What the report prints, in terms of [filtered_chars]. *)
Lemma generate_summary_report_stdout {U : UnicodeDB} (names : list (list N))
    (self : SpiritedAwayAnalyzer) :
  let filtered :=
    Dict.filter_values (fun v => 0 <? v)
      (extract_characters_with names self).1.2 in
  let key := fun k => default 0 (Dict.get filtered k) in
  let ranking :=
    [Rule; Title; TitleZh; Rule;
     ScriptLength (length (lines self)); ScriptLengthZh (length (lines self));
     CharactersDetected (length filtered); CharactersDetectedZh] ++
    ((fun kv => Appearances kv.1 kv.2) <$> sorted_desc filtered) in
  (generate_summary_report_with names self).1 =
    match py_max key (Dict.keys filtered) with
    | Raise e => (ranking, Raise e)
    | Ok top =>
        (ranking ++
         [MostActive top; MostActiveZh top; Generated; GeneratedZh;
          GeneratedFile (u "spirited_away_wordcloud.png");
          GeneratedFile (u "character_frequency.png");
          GeneratedFile (u "sentiment_analysis.png")], Ok true)
    end.
Proof.
  intros filtered key ranking. subst filtered key ranking.
  unfold generate_summary_report_with.
  destruct (extract_characters_with names self) as [[cl cc] self'].
  cbn [fst snd].
  by destruct (py_max _ (Dict.keys (Dict.filter_values _ cc))).
Qed.

Lemma insert_desc_perm (x : list N * nat) (s : list (list N * nat)) :
  insert_desc x s ≡ₚ x :: s.
Proof.
  induction s as [|y s IH]; [done|]. simpl.
  destruct (x.2 <? y.2); [|done]. rewrite IH. apply Permutation_swap.
Qed.

Lemma sorted_desc_perm (items : list (list N * nat)) :
  sorted_desc items ≡ₚ items.
Proof.
  induction items as [|x items IH]; [done|].
  unfold sorted_desc in *. simpl. by rewrite insert_desc_perm, IH.
Qed.

Lemma insert_desc_sorted (x : list N * nat) (s : list (list N * nat)) :
  StronglySorted (fun a b => b.2 <= a.2) s ->
  StronglySorted (fun a b => b.2 <= a.2) (insert_desc x s).
Proof.
  induction s as [|y s IH]; intros Hs; simpl.
  - repeat constructor.
  - apply StronglySorted_cons in Hs as [Hy Hs].
    destruct (Nat.ltb_spec x.2 y.2) as [Hlt|Hge].
    + apply StronglySorted_cons. split; [|by apply IH].
      rewrite insert_desc_perm. constructor; [lia | done].
    + apply StronglySorted_cons. split.
      * constructor; [done|]. eapply Forall_impl; [exact Hy|].
        intros z Hz. simpl in Hz. lia.
      * by apply StronglySorted_cons.
Qed.

Lemma sorted_desc_sorted (items : list (list N * nat)) :
  StronglySorted (fun a b => b.2 <= a.2) (sorted_desc items).
Proof.
  induction items as [|x items IH]; [constructor|].
  by apply insert_desc_sorted.
Qed.

(** The sort is stable: items with the same count keep their order. *)
Lemma insert_desc_stable (n : nat) (x : list N * nat)
    (s : list (list N * nat)) :
  filter (fun kv => kv.2 = n) (insert_desc x s) =
  filter (fun kv => kv.2 = n) (x :: s).
Proof.
  induction s as [|y s IH]; [done|]. simpl.
  destruct (Nat.ltb_spec x.2 y.2) as [Hlt|Hge]; [|done].
  rewrite (filter_cons _ y), IH, !filter_cons.
  destruct (decide (y.2 = n)), (decide (x.2 = n)); try done. lia.
Qed.

Lemma sorted_desc_stable (n : nat) (items : list (list N * nat)) :
  filter (fun kv => kv.2 = n) (sorted_desc items) =
  filter (fun kv => kv.2 = n) items.
Proof.
  induction items as [|x items IH]; [done|].
  unfold sorted_desc in *. simpl. rewrite insert_desc_stable.
  by rewrite !filter_cons, IH.
Qed.

(** [max] returns the first of the largest elements. *)
Lemma py_max_first {A} (key : A -> nat) (xs : list A) (best : A) :
  py_max key xs = Ok best ->
  exists before after,
    xs = before ++ best :: after /\
    Forall (fun y => key y < key best) before /\
    Forall (fun y => key y <= key best) after.
Proof.
  destruct xs as [|x rest]; [done|]. simpl. intros [= <-].
  induction rest as [|y rest IH] using rev_ind.
  - exists [], []. by repeat split.
  - rewrite foldl_app. simpl.
    destruct IH as (before & after & Heq & Hb & Ha).
    set (r := foldl _ x rest) in *.
    destruct (Nat.ltb_spec (key r) (key y)) as [Hlt|Hge].
    + exists (x :: rest), []. split_and!; [by rewrite app_comm_cons | | done].
      rewrite Heq. apply Forall_app. split.
      * eapply Forall_impl; [exact Hb|]. intros z Hz. simpl in Hz. lia.
      * constructor; [done|].
        eapply Forall_impl; [exact Ha|]. intros z Hz. simpl in Hz. lia.
    + exists before, (after ++ [y]). split_and!; [| done |].
      * rewrite app_comm_cons, Heq, <- app_assoc. done.
      * apply Forall_app. split; [done|]. by constructor.
Qed.

(** X8: over a roster without repeated names, the ranking the report
    prints lists the roster characters with at least one mention, each once
    with its count, in descending order of count, characters with equal
    counts in roster order; and the number it announces as detected is the
    number of entries of the ranking. *)
Theorem generate_summary_report_ranking (U : UnicodeDB)
    (names : list (list N)) (self : SpiritedAwayAnalyzer) :
  NoDup names ->
  exists (ranked : list (list N * nat)) (tail : list report_line),
    (generate_summary_report_with names self).1.1 =
      [Rule; Title; TitleZh; Rule;
       ScriptLength (length (lines self)); ScriptLengthZh (length (lines self));
       CharactersDetected (length ranked); CharactersDetectedZh] ++
      ((fun kv => Appearances kv.1 kv.2) <$> ranked) ++ tail /\
    Forall (fun line => forall name count, line <> Appearances name count) tail /\
    StronglySorted (fun a b => b.2 <= a.2) ranked /\
    NoDup ranked.*1 /\
    (forall char n,
       (char, n) ∈ ranked <->
       char ∈ names /\ n = length (matched char (lines self)) /\ 0 < n) /\
    (forall n, (filter (fun kv => kv.2 = n) ranked).*1 `sublist_of` names).
Proof.
  intros Hnd.
  destruct (filtered_chars_spec names self Hnd) as (Hf & Hndf & Hsub & Hget).
  pose proof (generate_summary_report_stdout names self) as Hout.
  cbv zeta in Hout, Hf, Hndf, Hsub, Hget.
  set (filtered := Dict.filter_values _ _) in *.
  exists (sorted_desc filtered).
  assert (length (sorted_desc filtered) = length filtered) as Hlen
    by (apply Permutation_length, sorted_desc_perm).
  rewrite Hlen.
  assert (forall t : list report_line,
            Forall (fun line => forall name count,
                      line <> Appearances name count) t ->
            exists tail,
              ([Rule; Title; TitleZh; Rule;
                ScriptLength (length (lines self));
                ScriptLengthZh (length (lines self));
                CharactersDetected (length filtered); CharactersDetectedZh] ++
               ((fun kv => Appearances kv.1 kv.2) <$> sorted_desc filtered))
              ++ t =
              [Rule; Title; TitleZh; Rule;
               ScriptLength (length (lines self));
               ScriptLengthZh (length (lines self));
               CharactersDetected (length filtered); CharactersDetectedZh] ++
              ((fun kv => Appearances kv.1 kv.2) <$> sorted_desc filtered)
              ++ tail /\
              Forall (fun line => forall name count,
                        line <> Appearances name count) tail) as Htail.
  { intros t Ht. exists t. split; [by rewrite <- app_assoc | done]. }
  assert (exists tail,
            (generate_summary_report_with names self).1.1 =
              [Rule; Title; TitleZh; Rule;
               ScriptLength (length (lines self));
               ScriptLengthZh (length (lines self));
               CharactersDetected (length filtered); CharactersDetectedZh] ++
              ((fun kv => Appearances kv.1 kv.2) <$> sorted_desc filtered)
              ++ tail /\
            Forall (fun line => forall name count,
                      line <> Appearances name count) tail)
    as (tail & Hrep & Htl).
  { rewrite Hout. destruct (py_max _ _) as [top|e]; cbn [fst].
    - apply Htail. repeat (constructor; [done|]). constructor.
    - destruct (Htail []) as (tail & Heq & Ht); [constructor|].
      exists tail. split; [|done]. rewrite <- Heq. by rewrite app_nil_r. }
  exists tail. split_and!; [done | done | apply sorted_desc_sorted | | |].
  - by rewrite sorted_desc_perm.
  - intros char n. rewrite sorted_desc_perm.
    rewrite <- dict_get_iff_elem by done. apply Hget.
  - intros n. rewrite sorted_desc_stable.
    etrans; [|exact Hsub]. apply fmap_sublist, sublist_filter.
Qed.

Lemma generate_summary_report_ranking_witness :
  exists (ranked : list (list N * nat)) (tail : list report_line),
    (generate_summary_report (U:=ucd)
       (loaded [u "Haku"; u "Rin and Dad"; u "Dad"; u "Rin"])).1.1 =
      [Rule; Title; TitleZh; Rule; ScriptLength 4; ScriptLengthZh 4;
       CharactersDetected (length ranked); CharactersDetectedZh] ++
      ((fun kv => Appearances kv.1 kv.2) <$> ranked) ++ tail /\
    Forall (fun line => forall name count, line <> Appearances name count) tail /\
    StronglySorted (fun a b => b.2 <= a.2) ranked /\
    NoDup ranked.*1 /\
    (forall char n,
       (char, n) ∈ ranked <->
       char ∈ main_characters /\
       n = length (matched (U:=ucd) char
                     [u "Haku"; u "Rin and Dad"; u "Dad"; u "Rin"]) /\ 0 < n) /\
    (forall n, (filter (fun kv => kv.2 = n) ranked).*1
                 `sublist_of` main_characters).
Proof.
  apply (generate_summary_report_ranking ucd main_characters
           (loaded [u "Haku"; u "Rin and Dad"; u "Dad"; u "Rin"])).
  apply (bool_decide_unpack _). by vm_compute.
Defined.

Lemma app_pivot_inj {A} (x : A) (l1 l2 k1 k2 : list A) :
  x ∉ l1 -> x ∉ k1 -> l1 ++ x :: l2 = k1 ++ x :: k2 -> l1 = k1 /\ l2 = k2.
Proof.
  revert k1; induction l1 as [|a l1 IH]; intros k1 Hl Hk Heq.
  - destruct k1 as [|b k1]; simplify_eq/=; [done|].
    exfalso. apply Hk, elem_of_cons. by left.
  - destruct k1 as [|b k1]; simplify_eq/=.
    + exfalso. apply Hl, elem_of_cons. by left.
    + apply not_elem_of_cons in Hl as [_ Hl].
      apply not_elem_of_cons in Hk as [_ Hk].
      destruct (IH k1 Hl Hk) as [-> ->]; done.
Qed.

Lemma keys_filter_table (f : list N -> nat) (names : list (list N)) :
  Dict.keys (filter (fun kv : list N * nat => 0 <? kv.2)
               ((fun char => (char, f char)) <$> names)) =
  filter (fun char => 0 < f char) names.
Proof.
  unfold Dict.keys. induction names as [|k ks IH]; [done|].
  rewrite fmap_cons, !filter_cons. cbn [snd].
  destruct (Nat.ltb_spec 0 (f k)) as [Hpos|Hz].
  - rewrite !decide_True by done. by rewrite fmap_cons, IH.
  - destruct (decide (0 < f k)); [lia|]. exact IH.
Qed.

(** X9: over a roster without repeated names, the character the report
    names as most active is a roster character with at least one mention, no
    roster character has more mentions, and every roster character listed
    before it in the roster has fewer: among the characters with the largest
    count the report names the first of the roster.  When the line is
    printed the report returns [True]. *)
Theorem generate_summary_report_most_active (U : UnicodeDB)
    (names : list (list N)) (self : SpiritedAwayAnalyzer) (top : list N) :
  NoDup names ->
  MostActive top ∈ (generate_summary_report_with names self).1.1 ->
  let count := fun char => length (matched char (lines self)) in
  top ∈ names /\
  0 < count top /\
  (forall char, char ∈ names -> count char <= count top) /\
  (forall before after, names = before ++ top :: after ->
     forall char, char ∈ before -> count char < count top) /\
  MostActiveZh top ∈ (generate_summary_report_with names self).1.1 /\
  (generate_summary_report_with names self).1.2 = Ok true.
Proof.
  intros Hnd Hline count.
  destruct (filtered_chars_spec names self Hnd) as (Hf & Hndf & _ & Hget).
  destruct (extract_characters_tables names self Hnd) as [_ Htable].
  pose proof (generate_summary_report_stdout names self) as Hout.
  cbv zeta in Hout, Hf, Hndf, Hget.
  set (filtered := Dict.filter_values _ _) in *.
  set (key := fun k => default 0 (Dict.get filtered k)) in *.
  assert (Dict.keys filtered = filter (fun char => 0 < count char) names)
    as Hkeys.
  { rewrite Hf, Htable. apply keys_filter_table. }
  assert (forall char, char ∈ Dict.keys filtered -> key char = count char)
    as Hkey.
  { intros char [n Hn]%dict_get_Some_keys. unfold key. rewrite Hn.
    apply Hget in Hn as (_ & -> & _). done. }
  rewrite Hout in Hline |- *.
  destruct (py_max key (Dict.keys filtered)) as [best|e] eqn:Hmax;
    cbn [fst snd] in *.
  2:{ exfalso. apply elem_of_app in Hline as [Hline|Hline].
      - repeat (apply elem_of_cons in Hline as [Hline|Hline]; [done|]).
        by apply elem_of_nil in Hline.
      - by apply list_elem_of_fmap in Hline as (kv & ? & _). }
  assert (top = best) as ->.
  { apply elem_of_app in Hline as [Hline|Hline].
    - exfalso. apply elem_of_app in Hline as [Hline|Hline].
      + repeat (apply elem_of_cons in Hline as [Hline|Hline]; [done|]).
        by apply elem_of_nil in Hline.
      + by apply list_elem_of_fmap in Hline as (kv & ? & _).
    - apply elem_of_cons in Hline as [Hline|Hline]; [by injection Hline|].
      exfalso.
      repeat (apply elem_of_cons in Hline as [Hline|Hline]; [done|]).
      by apply elem_of_nil in Hline. }
  destruct (py_max_first key _ best Hmax) as (bf & af & Hsplit & Hbf & Haf).
  assert (best ∈ Dict.keys filtered) as Hbest.
  { rewrite Hsplit, elem_of_app, elem_of_cons. right. by left. }
  assert (best ∈ names /\ 0 < count best) as [Hin Hpos].
  { rewrite Hkeys in Hbest. by apply list_elem_of_filter in Hbest as [? ?]. }
  assert (forall char, char ∈ names -> 0 < count char ->
            char ∈ Dict.keys filtered) as Hlisted.
  { intros char Hc Hp. rewrite Hkeys. by apply list_elem_of_filter. }
  split_and!; [done | done | | | | done].
  - intros char Hc. destruct (Nat.eq_dec (count char) 0) as [->|Hnz]; [lia|].
    assert (char ∈ Dict.keys filtered) as Hk by (apply Hlisted; [done | lia]).
    rewrite <- (Hkey char Hk), <- (Hkey best Hbest).
    rewrite Hsplit in Hk.
    apply elem_of_app in Hk as [Hk|[->|Hk]%elem_of_cons]; [| lia |].
    + rewrite Forall_forall in Hbf. specialize (Hbf char Hk). simpl in Hbf. lia.
    + rewrite Forall_forall in Haf. by apply Haf.
  - intros before after Hnames char Hc.
    destruct (Nat.eq_dec (count char) 0) as [->|Hnz]; [lia|].
    assert (best ∉ before) as Hnb.
    { rewrite Hnames in Hnd. apply NoDup_app in Hnd as (_ & Hd & _).
      intros Hb. apply (Hd best Hb). apply elem_of_cons. by left. }
    assert (best ∉ bf) as Hnbf.
    { intros Hb. rewrite Forall_forall in Hbf. specialize (Hbf best Hb).
      simpl in Hbf. lia. }
    assert (bf = filter (fun char => 0 < count char) before) as ->.
    { rewrite Hkeys, Hnames, filter_app, filter_cons in Hsplit.
      rewrite decide_True in Hsplit by done.
      symmetry in Hsplit. apply app_pivot_inj in Hsplit as [? _]; [done..|].
      by intros [_ ?]%list_elem_of_filter. }
    assert (char ∈ filter (fun char => 0 < count char) before) as Hk
      by (apply list_elem_of_filter; split; [lia | done]).
    assert (char ∈ Dict.keys filtered) as Hk'.
    { rewrite Hsplit, elem_of_app. by left. }
    rewrite <- (Hkey char Hk'), <- (Hkey best Hbest).
    rewrite Forall_forall in Hbf. by apply Hbf.
  - apply elem_of_app. right. apply elem_of_cons. right.
    apply elem_of_cons. by left.
Qed.

Lemma generate_summary_report_most_active_witness :
  let count := fun char =>
    length (matched (U:=ucd) char
              [u "Haku"; u "Rin and Dad"; u "Dad"; u "Rin"]) in
  u "Rin" ∈ main_characters /\
  0 < count (u "Rin") /\
  (forall char, char ∈ main_characters -> count char <= count (u "Rin")) /\
  (forall before after, main_characters = before ++ u "Rin" :: after ->
     forall char, char ∈ before -> count char < count (u "Rin")) /\
  MostActiveZh (u "Rin") ∈
    (generate_summary_report (U:=ucd)
       (loaded [u "Haku"; u "Rin and Dad"; u "Dad"; u "Rin"])).1.1 /\
  (generate_summary_report (U:=ucd)
     (loaded [u "Haku"; u "Rin and Dad"; u "Dad"; u "Rin"])).1.2 = Ok true.
Proof.
  apply (generate_summary_report_most_active ucd main_characters
           (loaded [u "Haku"; u "Rin and Dad"; u "Dad"; u "Rin"]) (u "Rin")).
  - apply (bool_decide_unpack _). by vm_compute.
  - vm_compute. do 11 apply list_elem_of_further. apply list_elem_of_here.
Defined.

(** ** More on the sentiment scorer *)

Lemma total_pos_Z (p n : nat) :
  0 < p + n -> Z.pos (Pos.of_nat (p + n)) = (Z.of_nat p + Z.of_nat n)%Z.
Proof.
  intros Hpos. rewrite <- Nat2Z.inj_add. destruct (p + n) as [|k]; [lia|].
  by rewrite <- Pos.of_nat_succ, Zpos_P_of_succ_nat, Nat2Z.inj_succ.
Qed.

(** Exchanging the two counts negates the score. *)
Lemma sentiment_of_opp (p n : nat) :
  (sentiment_of n p == - sentiment_of p n)%Q.
Proof.
  unfold sentiment_of. rewrite (Nat.add_comm n p).
  destruct (Nat.ltb_spec 0 (p + n)) as [Hpos|Hz].
  - pose proof (total_pos_Z p n Hpos) as Hden.
    unfold Qeq, Qopp. simpl. rewrite ?Hden. lia.
  - by assert (p = 0 /\ n = 0) as [-> ->] by lia.
Qed.

(** X10: the sign of a segment score tells which vocabulary has more
    hits: the score is positive exactly when the positive hits outnumber the
    negative ones, zero exactly when they are as many, 1 exactly when there
    are only positive hits and -1 exactly when there are only negative ones;
    exchanging the two counts negates the score. *)
Theorem sentiment_of_sign (p n : nat) :
  ((0 < sentiment_of p n)%Q <-> n < p) /\
  ((sentiment_of p n < 0)%Q <-> p < n) /\
  ((sentiment_of p n == 0)%Q <-> p = n) /\
  ((sentiment_of p n == 1)%Q <-> n = 0 /\ 0 < p) /\
  ((sentiment_of p n == -1)%Q <-> p = 0 /\ 0 < n) /\
  (sentiment_of n p == - sentiment_of p n)%Q.
Proof.
  unfold sentiment_of. rewrite (Nat.add_comm n p).
  destruct (Nat.ltb_spec 0 (p + n)) as [Hpos|Hz].
  - pose proof (total_pos_Z p n Hpos) as Hden.
    unfold Qlt, Qeq, Qopp. simpl. rewrite ?Hden. split_and!; lia.
  - assert (p = 0 /\ n = 0) as [-> ->] by lia.
    unfold Qlt, Qeq. simpl. split_and!; lia.
Qed.

(** X11: the first nine segments hold [total_lines // 10] lines each and
    the last one holds the rest, [total_lines // 10 + total_lines % 10]
    lines, so at most nine lines more than the others. *)
Theorem segment_sizes (ls : list (list N)) :
  (forall i, i < 9 -> length (segment_lines ls i) = length ls / 10) /\
  length (segment_lines ls 9) = length ls / 10 + length ls mod 10 /\
  length (segment_lines ls 9) <= length ls / 10 + 9.
Proof.
  pose proof (Nat.div_mod_eq (length ls) 10) as Hdm.
  pose proof (Nat.mod_upper_bound (length ls) 10) as Hmod.
  split_and!.
  - intros i Hi. rewrite segment_lines_inner, length_take, length_drop by done.
    nia.
  - rewrite segment_lines_last, length_drop. lia.
  - rewrite segment_lines_last, length_drop. lia.
Qed.

Lemma segment_sizes_witness :
  length (segment_lines (replicate 25 (u "Haku")) 3) = 25 / 10.
Proof.
  apply (proj1 (segment_sizes (replicate 25 (u "Haku"))) 3). lia.
Defined.

(** The white space between the lines: U+0020. *)
Section JoinLower.
Context {U : UnicodeDB}.
Hypothesis space_uncased : is_cased 32%N = false.
Hypothesis space_not_ignorable : is_case_ignorable 32%N = false.

Lemma skip_case_ignorable_space (x y : str) :
  skip_case_ignorable (x ++ 32%N :: y) =
  match skip_case_ignorable x with
  | Some c => Some c
  | None => Some 32%N
  end.
Proof.
  induction x as [|c x IH]; simpl; [by rewrite space_not_ignorable|].
  by destruct (is_case_ignorable c).
Qed.

Lemma handle_capital_sigma_space_before (b b' a : str) :
  handle_capital_sigma (b ++ 32%N :: b') a = handle_capital_sigma b a.
Proof.
  unfold handle_capital_sigma. rewrite skip_case_ignorable_space.
  destruct (skip_case_ignorable b); [done|]. by rewrite space_uncased.
Qed.

Lemma handle_capital_sigma_space_after (b a a' : str) :
  handle_capital_sigma b (a ++ 32%N :: a') = handle_capital_sigma b a.
Proof.
  unfold handle_capital_sigma. rewrite skip_case_ignorable_space.
  destruct (skip_case_ignorable a); [done|]. by rewrite space_uncased.
Qed.

Lemma do_lower_space_before (b b' s : str) :
  do_lower (b ++ 32%N :: b') s = do_lower b s.
Proof.
  revert b; induction s as [|c s IH]; intros b; [done|]. cbn [do_lower].
  rewrite (app_comm_cons b), IH. f_equal.
  unfold lower_ucs4. destruct (c =? CAPITAL_SIGMA)%N; [|done].
  by rewrite handle_capital_sigma_space_before.
Qed.

Lemma do_lower_space_after (b s rest : str) :
  do_lower b (s ++ 32%N :: rest) =
  do_lower b s ++ to_lower_full 32%N ++ do_lower [] rest.
Proof.
  revert b; induction s as [|c s IH]; intros b.
  - cbn [app do_lower]. unfold lower_ucs4 at 1.
    change (32 =? CAPITAL_SIGMA)%N with false. cbv iota. f_equal.
    apply (do_lower_space_before [] b).
  - cbn [app do_lower]. rewrite IH, <- app_assoc. f_equal.
    unfold lower_ucs4. destruct (c =? CAPITAL_SIGMA)%N; [|done].
    by rewrite handle_capital_sigma_space_after.
Qed.

(** Lower-casing the joined lines is joining the lower-cased lines. *)
Lemma lower_join_space (ls : list str) :
  lower (Py.join [32%N] ls) = Py.join (lower [32%N]) (lower <$> ls).
Proof.
  induction ls as [|l ls IH]; [done|].
  destruct ls as [|l' ls]; [done|].
  rewrite join_cons_cons. rewrite !fmap_cons, join_cons_cons.
  rewrite <- !fmap_cons, <- IH. unfold lower at 1.
  cbn [app]. rewrite do_lower_space_after. unfold lower.
  assert (do_lower [] [32%N] = to_lower_full 32%N) as ->; [|done].
  cbn [do_lower]. unfold lower_ucs4.
  change (32 =? CAPITAL_SIGMA)%N with false. cbv iota.
  by rewrite app_nil_r.
Qed.

End JoinLower.

(** X12: when the Unicode database has the space neither cased nor
    case-ignorable, as it is, the text of a segment is its lower-cased lines
    joined by the lower-cased space, so every vocabulary word found in the
    lower-cased form of one line of the segment is a hit of the segment,
    whatever the line is: markup lines are searched like the others. *)
Theorem segment_text_lines (U : UnicodeDB) (self : SpiritedAwayAnalyzer)
    (i : nat) :
  is_cased 32%N = false -> is_case_ignorable 32%N = false ->
  segment_text (lines self) i =
    Py.join (lower (u " ")) (lower <$> segment_lines (lines self) i) /\
  (forall l word,
     l ∈ segment_lines (lines self) i ->
     Py.contains (lower l) word = true ->
     Py.contains (segment_text (lines self) i) word = true /\
     forall words, word ∈ words ->
       0 < count_words words (segment_text (lines self) i)).
Proof.
  intros Hcased Hign.
  assert (segment_text (lines self) i =
          Py.join (lower (u " ")) (lower <$> segment_lines (lines self) i))
    as Htext by (by apply lower_join_space).
  split; [done|]. intros l word Hl Hw.
  assert (Py.contains (segment_text (lines self) i) word = true) as Hhit.
  { rewrite Htext.
    destruct (join_elem (lower (u " "))
                (lower <$> segment_lines (lines self) i) (lower l))
      as (b & a & ->); [apply list_elem_of_fmap; by exists l|].
    apply contains_spec. apply contains_spec in Hw as (b' & a' & ->).
    exists (b ++ b'), (a' ++ a). by rewrite <- !app_assoc. }
  split; [done|]. intros words Hin. rewrite count_words_length.
  assert (word ∈ filter (fun w => Py.contains (segment_text (lines self) i) w)
                   words) as Hf
    by (apply list_elem_of_filter; split; [by apply Is_true_true | done]).
  destruct (filter _ words); [by apply elem_of_nil in Hf | simpl; lia].
Qed.

Lemma segment_text_lines_witness :
  Py.contains (segment_text (U:=ucd) [u "<Good> morning"; u "Haku"] 9)
    (u "good") = true.
Proof.
  apply (proj2 (segment_text_lines ucd
                  (loaded [u "<Good> morning"; u "Haku"]) 9
                  eq_refl eq_refl) (u "<Good> morning") (u "good")).
  - apply (bool_decide_unpack _). by vm_compute.
  - by vm_compute.
Defined.

(** X13: exchanging the positive and the negative vocabulary negates
    every score of the script. *)
Theorem sentiment_analysis_swap (U : UnicodeDB)
    (positive negative : list (list N)) (self : SpiritedAwayAnalyzer) :
  Forall2 (fun s s' => (s' == - s)%Q)
    (sentiment_analysis_with positive negative self).2
    (sentiment_analysis_with negative positive self).2.
Proof.
  rewrite !sentiment_analysis_scores. apply Forall2_fmap, Forall_Forall2_diag.
  apply Forall_forall. intros i _. unfold text_sentiment.
  apply sentiment_of_opp.
Qed.

(** ** More on the word-cloud text *)

Lemma blocked_app (o c : char) (p s : str) :
  blocked o c (p ++ s) -> blocked o c s.
Proof. induction p as [|x p IH]; [done|]. intros [_ H]. by apply IH. Qed.

Lemma blocked_no_span (o c : char) (s : str) :
  blocked o c s -> ~ has_span o c s.
Proof.
  intros Hb (before & body & after & -> & Hne & Hc).
  apply blocked_app in Hb as [Hb _].
  destruct (Hb eq_refl) as [Hhead|Hnone].
  - destruct body as [|y body]; [done|]. simpl in Hhead.
    injection Hhead as ->. apply Hc, elem_of_cons. by left.
  - apply Hnone, elem_of_app. right. apply elem_of_cons. by left.
Qed.

Lemma scan_to_None (c : char) (s : str) :
  Re.scan_to c s = None -> c ∉ s.
Proof.
  induction s as [|x t IH]; simpl; [intros _; apply not_elem_of_nil|].
  destruct (N.eqb_spec x c) as [|Hx]; [done|].
  destruct (Re.scan_to c t); [done|]. intros _.
  apply not_elem_of_cons. split; [done | by apply IH].
Qed.

Lemma match_body_None (c : char) (t : str) :
  Re.match_body c t = None -> head t = Some c \/ c ∉ t.
Proof.
  destruct t as [|x t]; [intros _; right; apply not_elem_of_nil|].
  unfold Re.match_body. destruct (N.eqb_spec x c) as [->|Hx].
  - intros _. by left.
  - intros H. right. by apply scan_to_None.
Qed.

Lemma sub_span_elem (o c : char) (s : str) (x : char) :
  x ∈ Re.sub_span o c s -> x ∈ s.
Proof. apply sub_from_elem. Qed.

Lemma sub_from_sublist (o c : char) (k : nat) (s : str) :
  Re.sub_from o c k s `sublist_of` s.
Proof.
  revert k; induction s as [|x t IH]; intros k; simpl; [done|].
  destruct k as [|k]; [|by apply sublist_cons].
  destruct (x =? o)%N; [|by apply sublist_skip].
  destruct (Re.match_body c t); [by apply sublist_cons | by apply sublist_skip].
Qed.

(** After a substitution with distinct delimiters no match is left. *)
Lemma sub_span_blocked (o c : char) (s : str) :
  o <> c -> blocked o c (Re.sub_span o c s).
Proof.
  intros Hoc. remember (length s) as n eqn:Hn. revert s Hn.
  induction n as [n IH] using lt_wf_ind. intros s Hn.
  destruct s as [|x t]; [done|]. simpl in Hn. rewrite sub_span_cons.
  destruct (N.eqb_spec x o) as [->|Hx].
  - destruct (Re.match_body c t) as [k|] eqn:Hm.
    + apply (IH (length (drop k t))); [rewrite length_drop; lia | done].
    + split; [|apply (IH (length t)); [lia | done]].
      intros _. apply match_body_None in Hm as [Hhead|Hnone].
      * left. destruct t as [|y t]; [done|]. injection Hhead as ->.
        rewrite sub_span_cons.
        destruct (N.eqb_spec c o) as [->|_]; [done | done].
      * right. intros Hin. by apply Hnone, (sub_span_elem o c).
  - split; [done|]. apply (IH (length t)); [lia | done].
Qed.

(** A later substitution whose opening delimiter is not [c] only deletes,
    and cannot bring an [o] and a [c] together. *)
Lemma sub_span_keeps_blocked (o c o' c' : char) (s : str) :
  c <> o' -> blocked o c s -> blocked o c (Re.sub_span o' c' s).
Proof.
  intros Hco. remember (length s) as n eqn:Hn. revert s Hn.
  induction n as [n IH] using lt_wf_ind. intros s Hn Hb.
  destruct s as [|x t]; [done|]. simpl in Hn. destruct Hb as [Hx Hb].
  rewrite sub_span_cons.
  assert (blocked o c (x :: Re.sub_span o' c' t)) as Hkeep.
  { split; [|apply (IH (length t)); [lia | done | done]].
    intros Hxo. destruct (Hx Hxo) as [Hhead|Hnone].
    - left. destruct t as [|y t]; [done|]. injection Hhead as ->.
      rewrite sub_span_cons. by destruct (N.eqb_spec c o').
    - right. intros Hin. by apply Hnone, (sub_span_elem o' c'). }
  destruct (x =? o')%N; [|done].
  destruct (Re.match_body c' t) as [k|]; [|done].
  apply (IH (length (drop k t))); [rewrite length_drop; lia | done |].
  apply (blocked_app o c (take k t)). by rewrite take_drop.
Qed.

(** X14: whatever the script, the word-cloud text is the lower-cased
    script with characters deleted and nothing else changed; no
    angle-bracket span and no square-bracket span is left in it; and a
    script whose lower-cased text has no [<], [*] or [[] is passed on
    lower-cased and otherwise untouched. *)
Theorem wordcloud_text_markup_free (U : UnicodeDB)
    (self : SpiritedAwayAnalyzer) :
  wordcloud_text self `sublist_of` lower (script_text self) /\
  ~ has_span Re.LT Re.GT (wordcloud_text self) /\
  ~ has_span Re.LBRACKET Re.RBRACKET (wordcloud_text self) /\
  (Re.LT ∉ lower (script_text self) ->
   Re.STAR ∉ lower (script_text self) ->
   Re.LBRACKET ∉ lower (script_text self) ->
   wordcloud_text self = lower (script_text self)).
Proof.
  unfold wordcloud_text, Re.sub_angle, Re.sub_star, Re.sub_square.
  split_and!.
  - etrans; [apply sub_from_sublist|].
    etrans; [apply sub_from_sublist|]. apply sub_from_sublist.
  - apply blocked_no_span. apply sub_span_keeps_blocked; [done|].
    apply sub_span_keeps_blocked; [done|]. by apply sub_span_blocked.
  - apply blocked_no_span. by apply sub_span_blocked.
  - intros Hlt Hstar Hlb.
    pose proof (sub_span_app_plain Re.LT Re.GT _ [] Hlt) as H1.
    pose proof (sub_span_app_plain Re.STAR Re.STAR _ [] Hstar) as H2.
    pose proof (sub_span_app_plain Re.LBRACKET Re.RBRACKET _ [] Hlb) as H3.
    rewrite !app_nil_r in H1, H2, H3. cbn in H1, H2, H3.
    by rewrite H1, H2, H3.
Qed.

Lemma wordcloud_text_markup_free_witness :
  let self := (load_script (fun _ => Some (u "Chihiro and HAKU"))
                           (init SCRIPT_NAME)).2 in
  wordcloud_text (U:=ucd) self = lower (U:=ucd) (script_text self).
Proof.
  intros self.
  apply (wordcloud_text_markup_free ucd self);
    apply (bool_decide_unpack _); by vm_compute.
Defined.

(** X15: an asterisk span can survive the asterisk substitution, which
    removes the matches found in one pass from left to right: on any text
    that has two asterisks, a span without asterisk, an asterisk, a second
    span without asterisk and a last asterisk, the first asterisk and the
    second span with its asterisks are left. *)
Theorem sub_star_leaves_span (a b : list N) :
  a <> [] -> b <> [] -> Re.STAR ∉ a -> Re.STAR ∉ b ->
  Re.sub_star ([Re.STAR; Re.STAR] ++ a ++ [Re.STAR] ++ b ++ [Re.STAR]) =
    [Re.STAR] ++ b ++ [Re.STAR] /\
  has_span Re.STAR Re.STAR
    (Re.sub_star ([Re.STAR; Re.STAR] ++ a ++ [Re.STAR] ++ b ++ [Re.STAR])).
Proof.
  intros Ha Hb Hsa Hsb.
  assert (Re.sub_star ([Re.STAR; Re.STAR] ++ a ++ [Re.STAR] ++ b ++ [Re.STAR])
          = [Re.STAR] ++ b ++ [Re.STAR]) as Heq.
  { unfold Re.sub_star. cbn [app]. rewrite sub_span_cons, N.eqb_refl.
    cbn [Re.match_body]. rewrite N.eqb_refl. f_equal.
    rewrite sub_span_cons, N.eqb_refl.
    assert (Re.match_body Re.STAR (a ++ Re.STAR :: b ++ [Re.STAR]) =
            Some (length a + 1)) as ->.
    { destruct a as [|x a]; [done|].
      apply not_elem_of_cons in Hsa as [Hx Hsa'].
      unfold Re.match_body. cbn [app].
      destruct (N.eqb_spec x Re.STAR) as [|_]; [done|].
      rewrite (app_comm_cons a _ x).
      rewrite (scan_to_app_plain Re.STAR (x :: a))
        by (by apply not_elem_of_cons).
      cbn [Re.scan_to]. by rewrite N.eqb_refl. }
    rewrite (cons_middle Re.STAR a), app_assoc, drop_app_length'
      by (rewrite length_app; simpl; lia).
    rewrite (sub_span_app_plain Re.STAR Re.STAR b [Re.STAR]) by done.
    f_equal. }
  split; [done|]. rewrite Heq. by exists [], b, [].
Qed.

Lemma sub_star_leaves_span_witness :
  Re.sub_star (u "**a*b*") = u "*b*".
Proof.
  apply (sub_star_leaves_span (u "a") (u "b"));
    [done | done | apply (bool_decide_unpack _); by vm_compute..].
Defined.

(** ** More on the relationship graph *)

Lemma weight_row (G : Nx.Graph) (a b : list N) :
  Nx.weight G a b = Dict.get (row G a) b.
Proof. unfold Nx.weight, row. by destruct (Dict.get G a). Qed.

Lemma weight_add_node (G : Nx.Graph) (n a b : list N) :
  Nx.weight (Nx.add_node G n) a b = Nx.weight G a b.
Proof. by rewrite !weight_row, row_add_node. Qed.

Lemma weight_add_edge (G : Nx.Graph) (x y : list N) (w : Z) (a b : list N) :
  Nx.weight (Nx.add_edge G x y w) a b =
  if decide ((a = x /\ b = y) \/ (a = y /\ b = x)) then Some w
  else Nx.weight G a b.
Proof.
  rewrite (weight_row G). unfold Nx.weight. rewrite get_add_edge.
  destruct (decide (a = y)) as [->|Hay]; cbn [mbind option_bind].
  - rewrite dict_get_set. destruct (decide (b = x)) as [->|Hbx].
    + rewrite decide_True by (by right). done.
    + destruct (decide (y = x)) as [->|Hyx].
      * rewrite dict_get_set, (decide_False (P := b = x)) by done.
        rewrite decide_False; [done|]. by intros [[_ ?]|[_ ?]].
      * rewrite decide_False; [done|]. by intros [[? _]|[_ ?]].
  - destruct (decide (a = x)) as [->|Hax]; cbn [mbind option_bind].
    + rewrite dict_get_set. destruct (decide (b = y)) as [->|Hby].
      * rewrite decide_True by (by left). done.
      * rewrite decide_False; [done|]. by intros [[_ ?]|[? _]].
    + rewrite decide_False by (by intros [[? _]|[? _]]).
      unfold row. by destruct (Dict.get G a).
Qed.

Lemma has_edge_weight (G : Nx.Graph) (a b : list N) :
  Nx.has_edge G a b = true <-> is_Some (Nx.weight G a b).
Proof.
  rewrite has_edge_row, weight_row. unfold Dict.mem.
  destruct (Dict.get (row G a) b); split; try done; by intros [? ?].
Qed.

(** The weight of a link is the weight of the last triple that names it,
    in either order. *)
Lemma character_network_weight (names : list (list N))
    (rels : list (list N * list N * Z)) (a b : list N) (w : Z) :
  Nx.weight (character_network_with names rels) a b = Some w ->
  Nx.weight (character_network_with names rels) b a = Some w /\
  ((a, b, w) ∈ rels \/ (b, a, w) ∈ rels) /\ a ∈ names /\ b ∈ names.
Proof.
  unfold character_network_with.
  assert (forall a b, Nx.weight (foldl Nx.add_node Nx.empty names) a b = None)
    as Hinit.
  { intros a' b'.
    assert (forall G, Nx.weight (foldl Nx.add_node G names) a' b' =
                      Nx.weight G a' b') as Hnodes.
    { induction names as [|n ns IH]; intros G; [done|].
      simpl. by rewrite IH, weight_add_node. }
    by rewrite Hnodes. }
  revert Hinit. generalize (foldl Nx.add_node Nx.empty names). intros G HG.
  assert (forall a b w, Nx.weight G a b = Some w ->
            Nx.weight G b a = Some w /\
            ((a, b, w) ∈ @nil (list N * list N * Z) \/
             (b, a, w) ∈ @nil (list N * list N * Z)) /\
            a ∈ names /\ b ∈ names) as Hinv
    by (intros a' b' w' Hw; by rewrite HG in Hw).
  clear HG. revert a b w.
  assert (forall done G,
            (forall a b w, Nx.weight G a b = Some w ->
               Nx.weight G b a = Some w /\
               ((a, b, w) ∈ done \/ (b, a, w) ∈ done) /\
               a ∈ names /\ b ∈ names) ->
            forall a b w,
              Nx.weight (foldl (add_relationship names) G rels) a b = Some w ->
              Nx.weight (foldl (add_relationship names) G rels) b a = Some w /\
              ((a, b, w) ∈ done ++ rels \/ (b, a, w) ∈ done ++ rels) /\
              a ∈ names /\ b ∈ names) as Hfold.
  { clear G Hinv. induction rels as [|[[x y] wt] rels IH];
      intros done G Hinv a b w; simpl.
    - rewrite app_nil_r. apply Hinv.
    - rewrite (cons_middle (x, y, wt) done rels), app_assoc.
      apply IH. clear a b w. intros a b w.
      destruct (bool_decide (x ∈ names) && bool_decide (y ∈ names)) eqn:Hg.
      + apply andb_true_iff in Hg
          as [Hx%bool_decide_eq_true Hy%bool_decide_eq_true].
        rewrite !weight_add_edge.
        destruct (decide ((a = x /\ b = y) \/ (a = y /\ b = x))) as [Hab|Hab].
        * intros [= <-]. rewrite decide_True by tauto.
          split; [done|]. rewrite !elem_of_app, !list_elem_of_singleton.
          destruct Hab as [[-> ->]|[-> ->]]; tauto.
        * intros Hw. rewrite decide_False by tauto.
          destruct (Hinv a b w Hw) as (? & ? & ? & ?).
          rewrite !elem_of_app. tauto.
      + intros Hw. destruct (Hinv a b w Hw) as (? & ? & ? & ?).
        rewrite !elem_of_app. tauto. }
  intros a b w Hw. by apply (Hfold [] G Hinv).
Qed.

Lemma edges_from_elem (seen : list (list N)) (adj : list (list N * Dict.t Z))
    (a b : list N) :
  (a, b) ∈ Nx.edges_from seen adj ->
  exists nbrs, (a, nbrs) ∈ adj /\ b ∈ Dict.keys nbrs.
Proof.
  revert seen; induction adj as [|[n nbrs] adj IH]; intros seen; simpl.
  - by intros ?%elem_of_nil.
  - intros [Hin|Hin]%elem_of_app.
    + apply list_elem_of_fmap in Hin as (m & [= -> ->] & Hm).
      apply list_elem_of_filter in Hm as [_ Hm].
      exists nbrs. split; [apply elem_of_cons; by left | done].
    + destruct (IH _ Hin) as (nb & Hnb & Hb).
      exists nb. split; [apply elem_of_cons; by right | done].
Qed.

(** X16: the drawing data of the network is always defined, for any
    roster and any authored triples: there is a size for every node and a
    width for every edge of [G.edges()], never a [KeyError]; the size of a
    node is 1000 plus 500 times its degree; and the width of an edge is
    twice the weight of an authored triple that links its two ends, which
    are both on the roster. *)
Theorem character_network_drawing_data (names : list (list N))
    (rels : list (list N * list N * Z)) :
  let G := character_network_with names rels in
  exists (sizes : list nat) (widths : list Z),
    node_sizes G = Some sizes /\
    edge_widths G = Some widths /\
    Forall2 (fun node size =>
               exists d, Nx.degree G node = Some d /\ size = d * 500 + 1000)
            (Nx.nodes G) sizes /\
    Forall (fun size => 1000 <= size) sizes /\
    Forall2 (fun e width =>
               exists w, width = (w * 2)%Z /\
                         Nx.weight G e.1 e.2 = Some w /\
                         ((e.1, e.2, w) ∈ rels \/ (e.2, e.1, w) ∈ rels) /\
                         e.1 ∈ names /\ e.2 ∈ names)
            (Nx.edges G) widths.
Proof.
  intros G.
  destruct (character_network_shape names rels) as [Hk Hr]. fold G in Hk, Hr.
  assert (is_Some (node_sizes G)) as [sizes Hsizes].
  { unfold node_sizes. apply mapM_is_Some, Forall_forall. intros n Hn.
    unfold Nx.nodes in Hn. apply dict_get_Some_keys in Hn as [nb Hnb].
    unfold Nx.degree. simpl. rewrite Hnb. by eexists. }
  assert (is_Some (edge_weights G)) as [weights Hweights].
  { unfold edge_weights. apply mapM_is_Some, Forall_forall. intros [a b] He.
    apply edges_from_elem in He as (nb & Hnb & Hb).
    apply dict_elem_get in Hnb; [|done].
    unfold Nx.weight. simpl. rewrite Hnb. simpl.
    by apply dict_get_Some_keys. }
  exists sizes, ((fun w => (w * 2)%Z) <$> weights).
  assert (Forall2 (fun node size =>
                     exists d, Nx.degree G node = Some d /\
                               size = d * 500 + 1000) (Nx.nodes G) sizes)
    as Hnode.
  { apply mapM_Some_1 in Hsizes.
    eapply Forall2_impl; [exact Hsizes|]. intros n size Hn. simpl in Hn.
    destruct (Nx.degree G n) as [d|]; [|done]. simpl in Hn.
    exists d. split; [done | by injection Hn]. }
  split_and!.
  - done.
  - unfold edge_widths. by rewrite Hweights.
  - done.
  - clear Hsizes. induction Hnode as [|n size ns ss (d & _ & ->) _ IH];
      constructor; [lia | done].
  - apply Forall2_fmap_r. apply mapM_Some_1 in Hweights.
    eapply Forall2_impl; [exact Hweights|]. intros [a b] w Hw.
    cbn [fst snd] in *. exists w. split; [done|]. split; [done|].
    apply character_network_weight in Hw as (_ & ? & ? & ?). done.
Qed.

(** *** The edge list *)

(** An edge is reported at a row for a neighbour that is neither seen nor
    the key of an earlier row. *)
Lemma edges_from_spec (seen : list (list N))
    (adj : list (list N * Dict.t Z)) (a b : list N) :
  (a, b) ∈ Nx.edges_from seen adj <->
  exists pre nbrs post,
    adj = pre ++ (a, nbrs) :: post /\ b ∈ Dict.keys nbrs /\
    (b ∉ seen) /\ (b ∉ Dict.keys pre).
Proof.
  revert seen; induction adj as [|[n nb] adj IH]; intros seen.
  - split; [by intros ?%elem_of_nil|].
    intros (pre & nbrs & post & Heq & _). by destruct pre.
  - cbn [Nx.edges_from]. rewrite elem_of_app, IH. split.
    + intros [Hin|(pre & nbrs & post & -> & Hb & Hs & Hp)].
      * apply list_elem_of_fmap in Hin as (m & [= -> ->] & Hm).
        apply list_elem_of_filter in Hm as [Hs Hm].
        exists [], nb, adj. split_and!; [done.. | apply not_elem_of_nil].
      * apply not_elem_of_cons in Hs as [Hbn Hs].
        exists ((n, nb) :: pre), nbrs, post. split_and!; [done.. |].
        unfold Dict.keys. csimpl. by apply not_elem_of_cons.
    + intros (pre & nbrs & post & Heq & Hb & Hs & Hp).
      destruct pre as [|[n' nb'] pre]; simplify_eq/=.
      * left. apply list_elem_of_fmap. exists b. split; [done|].
        by apply list_elem_of_filter.
      * unfold Dict.keys in Hp. csimpl in Hp.
        apply not_elem_of_cons in Hp as [Hbn Hp]. right.
        exists pre, nbrs, post. split_and!; [done.. | | done].
        by apply not_elem_of_cons.
Qed.

Lemma edges_from_NoDup (seen : list (list N))
    (adj : list (list N * Dict.t Z)) :
  NoDup (Dict.keys adj) -> rows_nodup adj -> NoDup (Nx.edges_from seen adj).
Proof.
  revert seen; induction adj as [|[n nb] adj IH]; intros seen Hk Hr.
  - constructor.
  - unfold Dict.keys in Hk. csimpl in Hk. apply NoDup_cons in Hk as [Hn Hk].
    apply Forall_cons in Hr as [Hnb Hr]. cbn [snd] in Hnb.
    cbn [Nx.edges_from]. apply NoDup_app. split_and!.
    + apply NoDup_fmap_2; [by intros ?? [= ->] | by apply NoDup_filter].
    + intros [a b] Hin Hin'.
      apply list_elem_of_fmap in Hin as (m & [= -> ->] & _).
      apply edges_from_elem in Hin' as (nbrs & Hrow & _).
      apply Hn, list_elem_of_fmap. by exists (n, nbrs).
    + by apply IH.
Qed.

(** In a well-shaped symmetric graph [G.edges()] lists every link once,
    in one direction. *)
Lemma edges_once (G : Nx.Graph) :
  NoDup (Dict.keys G) -> rows_nodup G ->
  (forall a b, Nx.has_edge G a b = Nx.has_edge G b a) ->
  NoDup (Nx.edges G) /\
  (forall a b, (a, b) ∈ Nx.edges G -> Nx.has_edge G a b = true) /\
  (forall a b, Nx.has_edge G a b = true ->
     (a, b) ∈ Nx.edges G \/ (b, a) ∈ Nx.edges G) /\
  (forall a b, (a, b) ∈ Nx.edges G -> (b, a) ∈ Nx.edges G -> a = b).
Proof.
  intros Hk Hr Hsym.
  assert (forall a b nbrs, Dict.get G a = Some nbrs ->
            (Nx.has_edge G a b = true <-> b ∈ Dict.keys nbrs)) as Hrow.
  { intros a b nbrs Hget. unfold Nx.has_edge. rewrite Hget.
    apply dict_mem_keys. }
  split_and!.
  - by apply edges_from_NoDup.
  - intros a b (nbrs & Hin & Hb)%edges_from_elem.
    apply dict_elem_get in Hin; [|done]. by apply (Hrow a b nbrs).
  - intros a b He.
    destruct (Dict.get G a) as [nbrs|] eqn:Hget;
      [|unfold Nx.has_edge in He; by rewrite Hget in He].
    apply (Hrow a b nbrs Hget) in He as Hb.
    destruct (dict_get_split G a nbrs Hget) as (pre & post & HG & Hpre).
    destruct (decide (b ∈ Dict.keys pre)) as [Hbp|Hbp].
    + right. apply dict_get_Some_keys in Hbp as [nbb Hgb].
      destruct (dict_get_split pre b nbb Hgb) as (p1 & p2 & Hp & Hp1).
      assert (Dict.get G b = Some nbb) as Hgb'.
      { apply dict_elem_get; [done|]. rewrite HG, Hp, !elem_of_app.
        left. right. apply elem_of_cons. by left. }
      apply edges_from_spec.
      exists p1, nbb, (p2 ++ (a, nbrs) :: post). split_and!.
      * rewrite HG, Hp, <- app_assoc. done.
      * apply (Hrow b a nbb Hgb'). by rewrite Hsym.
      * apply not_elem_of_nil.
      * intros Ha. apply Hpre. rewrite Hp. unfold Dict.keys in *.
        rewrite fmap_app, elem_of_app. by left.
    + left. apply edges_from_spec. exists pre, nbrs, post.
      split_and!; [done | done | apply not_elem_of_nil | done].
  - intros a b Hab Hba. destruct (decide (a = b)) as [|Hne]; [done|]. exfalso.
    apply edges_from_spec in Hab as (pre & nb & post & HG & _ & _ & Hbpre).
    apply edges_from_spec in Hba as (pre' & nb' & post' & HG' & _ & _ & Hapre').
    assert (b ∈ Dict.keys post) as Hbpost.
    { assert (b ∈ Dict.keys G) as Hb.
      { rewrite HG'. unfold Dict.keys. rewrite fmap_app, elem_of_app.
        right. csimpl. apply elem_of_cons. by left. }
      rewrite HG in Hb. unfold Dict.keys in Hb, Hbpre |- *.
      rewrite fmap_app in Hb. csimpl in Hb.
      apply elem_of_app in Hb as [?|[?|?]%elem_of_cons]; done. }
    apply dict_get_Some_keys in Hbpost as [nbb Hgb].
    destruct (dict_get_split post b nbb Hgb) as (p1 & p2 & Hp & Hp1).
    assert (Dict.keys G =
            Dict.keys (pre ++ (a, nb) :: p1) ++ b :: Dict.keys p2) as Hk1.
    { rewrite HG, Hp. unfold Dict.keys. rewrite !fmap_app. csimpl.
      rewrite fmap_app. csimpl. by rewrite <- app_assoc. }
    assert (Dict.keys G = Dict.keys pre' ++ b :: Dict.keys post') as Hk2.
    { rewrite HG'. unfold Dict.keys. by rewrite fmap_app. }
    assert ((b ∉ Dict.keys (pre ++ (a, nb) :: p1)) /\ (b ∉ Dict.keys pre'))
      as [Hn1 Hn2].
    { split.
      - rewrite Hk1 in Hk. apply NoDup_app in Hk as (_ & Hd & _).
        intros Hin. apply (Hd b Hin). apply elem_of_cons. by left.
      - rewrite Hk2 in Hk. apply NoDup_app in Hk as (_ & Hd & _).
        intros Hin. apply (Hd b Hin). apply elem_of_cons. by left. }
    rewrite Hk1 in Hk2.
    apply app_pivot_inj in Hk2 as [Heq _]; [|done..].
    apply Hapre'. rewrite <- Heq. unfold Dict.keys.
    rewrite fmap_app, elem_of_app. right. csimpl. apply elem_of_cons. by left.
Qed.

(** X17: for any roster and any authored triples, [G.edges()] of the
    network lists every link exactly once and in one direction only: the
    list has no repeated entry, each entry joins two linked roster
    characters, every linked pair is listed in one of its two directions,
    and never in both. *)
Theorem character_network_edge_list (names : list (list N))
    (rels : list (list N * list N * Z)) :
  let G := character_network_with names rels in
  NoDup (Nx.edges G) /\
  (forall a b, (a, b) ∈ Nx.edges G ->
     Nx.has_edge G a b = true /\ a ∈ names /\ b ∈ names) /\
  (forall a b, Nx.has_edge G a b = true ->
     (a, b) ∈ Nx.edges G \/ (b, a) ∈ Nx.edges G) /\
  (forall a b, (a, b) ∈ Nx.edges G -> (b, a) ∈ Nx.edges G -> a = b).
Proof.
  intros G.
  destruct (character_network_shape names rels) as [Hk Hr].
  assert (forall a b, Nx.has_edge G a b = Nx.has_edge G b a) as Hsym.
  { intros a b. apply eq_true_iff_eq. subst G.
    rewrite !character_network_has_edge.
    split; intros (w & [?|?] & ? & ?); exists w; tauto. }
  destruct (edges_once G Hk Hr Hsym) as (Hnd & Hin & Hall & Hone).
  split_and!; [done | | done | done].
  intros a b He. apply Hin in He as He'. split; [done|].
  apply character_network_has_edge in He' as (_ & _ & ? & ?). done.
Qed.

(** ** The whole run *)

Lemma extract_characters_lines_only {U : UnicodeDB} (names : list (list N))
    (self1 self2 : SpiritedAwayAnalyzer) :
  lines self1 = lines self2 ->
  (extract_characters_with names self1).1 =
  (extract_characters_with names self2).1.
Proof. intros Hl. unfold extract_characters_with. cbn [fst]. by rewrite Hl. Qed.

Lemma generate_summary_report_lines_only {U : UnicodeDB}
    (names : list (list N)) (self1 self2 : SpiritedAwayAnalyzer) :
  lines self1 = lines self2 ->
  (generate_summary_report_with names self1).1 =
  (generate_summary_report_with names self2).1.
Proof.
  intros Hl. rewrite !generate_summary_report_stdout. cbv zeta.
  by rewrite (extract_characters_lines_only names self1 self2 Hl), Hl.
Qed.

Lemma sentiment_analysis_lines_only {U : UnicodeDB}
    (positive negative : list (list N)) (self1 self2 : SpiritedAwayAnalyzer) :
  lines self1 = lines self2 ->
  sentiment_analysis_with positive negative self1 =
  sentiment_analysis_with positive negative self2.
Proof. intros Hl. unfold sentiment_analysis_with. by rewrite Hl. Qed.



Lemma character_network_edge_list_witness :
  Nx.has_edge create_character_network (u "Chihiro") (u "Haku") = true /\
  u "Chihiro" ∈ network_characters /\ u "Haku" ∈ network_characters.
Proof.
  apply (proj1 (proj2 (character_network_edge_list network_characters
                         relationships))).
  apply (bool_decide_unpack _). by vm_compute.
Defined.

(** ** Short scripts and analyzers without a script *)

Lemma no_empty_word (words : list str) :
  [] ∉ words -> Forall (fun w => w <> []) words.
Proof. intros Hne. apply Forall_forall. by intros w Hw ->. Qed.

Lemma text_sentiment_nil_text (positive negative : list str) :
  [] ∉ positive -> [] ∉ negative -> text_sentiment positive negative [] = 0%Q.
Proof.
  intros Hp Hn. unfold text_sentiment.
  by rewrite !count_words_nil_text by by apply no_empty_word.
Qed.

Lemma segment_lines_short (ls : list str) (i : nat) :
  length ls < 10 -> i < 9 -> segment_lines ls i = [].
Proof.
  intros Hlen Hi. rewrite segment_lines_inner by done.
  by rewrite (Nat.div_small (length ls) 10) by done.
Qed.

Lemma segment_lines_short_last (ls : list str) :
  length ls < 10 -> segment_lines ls 9 = ls.
Proof.
  intros Hlen. rewrite segment_lines_last.
  by rewrite (Nat.div_small (length ls) 10) by done.
Qed.

(** X19: a script of fewer than ten lines has nine empty segments and a
    tenth that is the whole script, so, with vocabularies that hold no
    empty word, its first nine scores are 0 and the tenth is the score of
    the whole script. *)
Theorem short_script_scores (U : UnicodeDB)
    (positive negative : list (list N)) (self : SpiritedAwayAnalyzer) :
  length (lines self) < 10 ->
  [] ∉ positive -> [] ∉ negative ->
  (forall i, i < 9 -> segment_lines (lines self) i = []) /\
  segment_lines (lines self) 9 = lines self /\
  (sentiment_analysis_with positive negative self).2 =
    replicate 9 0%Q ++
    [text_sentiment positive negative
       (lower (Py.join (u " ") (lines self)))].
Proof.
  intros Hlen Hp Hn. split_and!.
  - intros i Hi. by apply segment_lines_short.
  - by apply segment_lines_short_last.
  - rewrite sentiment_analysis_scores. unfold segment_text.
    change (seq 0 10) with ([0; 1; 2; 3; 4; 5; 6; 7; 8] ++ [9]).
    rewrite fmap_app. f_equal.
    + apply list_eq_Forall2, Forall2_fmap_l.
      change (replicate 9 0%Q) with ((fun _ : nat => 0%Q) <$> seq 0 9).
      apply Forall2_fmap_r, Forall_Forall2_diag, Forall_forall.
      intros i Hi%elem_of_seq. unfold compose.
      rewrite segment_lines_short by (done || lia).
      by apply text_sentiment_nil_text.
    + cbn [fmap list_fmap]. by rewrite segment_lines_short_last.
Qed.

Lemma short_script_scores_witness :
  (sentiment_analysis (U:=ucd) (loaded [u "Good day"; u "Bad luck, sorry"])).2 =
    replicate 9 0%Q ++
    [text_sentiment positive_words negative_words
       (lower (U:=ucd) (Py.join (u " ") [u "Good day"; u "Bad luck, sorry"]))].
Proof.
  apply (short_script_scores ucd positive_words negative_words
           (loaded [u "Good day"; u "Bad luck, sorry"])).
  - vm_compute. lia.
  - apply (bool_decide_unpack _). by vm_compute.
  - apply (bool_decide_unpack _). by vm_compute.
Defined.

Lemma from_keys_values {V} (ks : list (list N)) (v : V) :
  Forall (fun kv => kv.2 = v) (Dict.from_keys ks v).
Proof.
  unfold Dict.from_keys.
  assert (Forall (fun kv : list N * V => kv.2 = v) []) as Hacc by constructor.
  revert Hacc. generalize ([] : list (list N * V)).
  induction ks as [|k ks IH]; intros acc Hacc; [done|].
  cbn [foldl]. apply IH. by apply dict_Forall_set.
Qed.

Lemma filter_values_none {V} (p : V -> bool) (d : list (list N * V)) :
  Forall (fun kv => p kv.2 = false) d -> Dict.filter_values p d = [].
Proof.
  unfold Dict.filter_values. generalize ([] : list (list N * V)).
  intros acc Hd. revert acc.
  induction Hd as [|kv d Hkv _ IH]; intros acc; [done|].
  cbn [foldl]. by rewrite Hkv.
Qed.

(** X20: a load that fails returns [False] and leaves the analyzer as it
    was.  On an analyzer that holds no line, as [__init__] makes it, the
    data the methods compute are empty, whatever the roster: the text that
    [create_wordcloud] hands to the word cloud is empty, every roster
    character has no recorded line and the count 0, the dict that
    [analyze_characters] hands to the bar chart is empty, the ten scores
    are 0 when the vocabularies hold no empty word, and the report prints a
    script length of 0 and 0 detected characters and then raises
    [ValueError].  What the drawing calls do with empty data is not part of
    the statement. *)
Theorem failed_load_analyses (U : UnicodeDB)
    (read_file : list N -> option (list N)) (file : list N)
    (names positive negative : list (list N)) :
  read_file file = None ->
  [] ∉ positive -> [] ∉ negative ->
  (forall self, script_file self = file ->
     load_script read_file self = (false, self)) /\
  let self := (load_script read_file (init file)).2 in
  self = init file /\
  wordcloud_text self = [] /\
  (forall char, char ∈ names ->
     Dict.get (extract_characters_with names self).1.1 char = Some [] /\
     Dict.get (extract_characters_with names self).1.2 char = Some 0) /\
  (analyze_characters_with names self).1 = [] /\
  (sentiment_analysis_with positive negative self).2 = replicate 10 0%Q /\
  (generate_summary_report_with names self).1 =
    ([Rule; Title; TitleZh; Rule; ScriptLength 0; ScriptLengthZh 0;
      CharactersDetected 0; CharactersDetectedZh], Raise ValueError).
Proof.
  intros Hread Hp Hn.
  assert (forall self, script_file self = file ->
            load_script read_file self = (false, self)) as Hfail.
  { intros self Hf. unfold load_script. by rewrite Hf, Hread. }
  split; [exact Hfail|].
  rewrite (Hfail (init file)) by done. cbn [snd].
  assert (Dict.filter_values (fun v => 0 <? v)
            (extract_characters_with names (init file)).1.2 = []) as Hnone.
  { apply filter_values_none. cbn [extract_characters_with init lines foldl snd fst].
    eapply Forall_impl; [apply from_keys_values|]. by intros kv ->. }
  split_and!.
  - done.
  - done.
  - intros char Hchar.
    cbn [extract_characters_with init lines foldl snd fst].
    by rewrite !dict_get_from_keys, !decide_True by done.
  - unfold analyze_characters_with.
    destruct (extract_characters_with names (init file)) as [[cl cc] self'].
    exact Hnone.
  - rewrite sentiment_analysis_scores.
    change (replicate 10 0%Q) with ((fun _ : nat => 0%Q) <$> seq 0 10).
    apply list_eq_Forall2, Forall2_fmap, Forall_Forall2_diag, Forall_forall.
    intros i Hi%elem_of_seq. unfold segment_text.
    replace (segment_lines (lines (init file)) i) with ([] : list (list N)).
    + by apply text_sentiment_nil_text.
    + unfold segment_lines, segment_bounds, Py.slice. cbn [init lines length].
      by rewrite drop_nil, take_nil.
  - pose proof (generate_summary_report_stdout names (init file)) as Hout.
    cbn zeta in Hout. rewrite Hout, Hnone. reflexivity.
Qed.

Lemma failed_load_analyses_witness :
  let self := (load_script (fun _ => None) (init SCRIPT_NAME)).2 in
  self = init SCRIPT_NAME /\
  (analyze_characters (U:=ucd) self).1 = [] /\
  (sentiment_analysis (U:=ucd) self).2 = replicate 10 0%Q /\
  (generate_summary_report (U:=ucd) self).1.2 = Raise ValueError.
Proof.
  pose proof (failed_load_analyses ucd (fun _ => None) SCRIPT_NAME
                main_characters positive_words negative_words) as H.
  destruct H as [_ (Hs & _ & _ & Ha & Hsc & Hr)].
  - reflexivity.
  - apply (bool_decide_unpack _). by vm_compute.
  - apply (bool_decide_unpack _). by vm_compute.
  - cbn zeta. split_and!; [exact Hs | exact Ha | exact Hsc |].
    unfold generate_summary_report.
    cbn zeta in Hr. by rewrite Hr.
Defined.
